(** * DynamoDB notebook: the stream shard walker and the guarded cells

    A shallow embedding of the code cells of [dynamo-with-stream.ipynb].
    The remote service is not part of the notebook: the streams client is
    a pair of functions from cursors to answers, and the table service is an
    interface with one reference instance.  Every call to the service and
    every printed line is recorded, in program order, in one event log.
    The cells that read one batch by hand and the cell that loads the books
    in a batch are embedded in modules of their own. *)

From Stdlib Require Import ZArith List String Ascii Lia Bool.
From Stdlib Require Import DecimalString.
From stdpp Require Import base option gmap strings.
From Equations Require Import Equations.
Import ListNotations.

Local Open Scope string_scope.
Local Open Scope list_scope.
Local Open Scope Z_scope.

(** ** Exceptions and outcomes *)

(** [botocore.exceptions.ClientError] carries the service's error code in
    [ce.response['Error']['Code']]; every other exception (a connection
    failure, a [KeyError], ...) is not caught by [except ClientError]. *)
Inductive exn : Type :=
| ClientError (code : string)
| OtherError (what : string).

Inductive result (A : Type) : Type :=
| Ok (a : A)
| Raise (e : exn).
Arguments Ok {A} a.
Arguments Raise {A} e.

(** Python's [str] on an integer. *)
Definition str (n : Z) : string := NilZero.string_of_int (Z.to_int n).

Module Walker.

(** ** Data of the streams interface *)

(** A change record, as far as the walker reads it: [record['eventName']]
    and the two key attributes under [record['dynamodb']['Keys']]. *)
Record StreamRecord : Type := mkRecord {
  eventName : string;
  author : string;
  title : string
}.

(** The answer of [get_records]: the key ['Records'] is always there, the
    key ['NextShardIterator'] is absent once the shard is closed. *)
Record Response : Type := mkResponse {
  Records : list StreamRecord;
  NextShardIterator : option string
}.

(** What the walker prints, line by line. *)
Inductive Line : Type :=
| Checking (shardId : string)
| FoundRecords (count : Z)
| RecordLine (r : StreamRecord)
| StillActive
| ShardClosed (count : Z)
| Done.

Definition render (l : Line) : string :=
  match l with
  | Checking shardId => "Checking " +:+ shardId
  | FoundRecords count =>
      "    Found records on iteration number: " +:+ str count
  | RecordLine r =>
      "    " +:+ eventName r +:+ " - " +:+ author r +:+ " - " +:+ title r
  | StillActive =>
      "    Shard still is still active but reached polling limit for demo."
  | ShardClosed count =>
      "    Iteration: " +:+ str count
        +:+ " - No next iterator found. Shard is closed."
  | Done => "Done!"
  end.

(** The observable events of the cell, in program order. *)
Inductive Event : Type :=
| EvListStreams
| EvDescribeStream (streamArn : string)
| EvGetShardIterator (streamArn shardId iteratorType : string)
| EvGetRecords (shardIterator : string)
| EvPrint (l : Line).

(** ** The monad of the cell: an event log and a possible exception *)

Definition M (A : Type) : Type := (list Event * result A)%type.

Definition ret {A} (a : A) : M A := ([], Ok a).

Definition bind {A B} (m : M A) (f : A -> M B) : M B :=
  match m with
  | (l, Ok a) => let (l', r) := f a in (l ++ l', r)
  | (l, Raise e) => (l, Raise e)
  end.

Declare Scope walker_scope.
Delimit Scope walker_scope with walker.
Notation "x <- m ;; k" := (bind m (fun x => k))
  (at level 100, m at next level, right associativity) : walker_scope.
Notation "m ;;; k" := (bind m (fun _ => k))
  (at level 100, right associativity) : walker_scope.
Local Open Scope walker_scope.

Definition print (l : Line) : M unit := ([EvPrint l], Ok tt).

Definition trace {A} (m : M A) : list Event := fst m.
Definition outcome {A} (m : M A) : result A := snd m.

(** The value of a run that ended without an exception. *)
Definition final {A} (m : M A) : option A :=
  match snd m with Ok a => Some a | Raise _ => None end.

(** The notebook's variables that the cell reads or writes.  They are
    globals of the kernel: whatever an earlier cell or an earlier shard
    left in them is still there when the next shard starts. *)
Record Vars : Type := mkVars {
  shardId : string;
  iterator : string;
  get_records_res : Response;
  loop : bool;
  count : Z;
  records : list StreamRecord;
  next_iterator : option string
}.

(** Assignments to one variable. *)
Definition set_shardId (x : string) (v : Vars) : Vars :=
  mkVars x (iterator v) (get_records_res v) (loop v) (count v)
    (records v) (next_iterator v).
Definition set_iterator (x : string) (v : Vars) : Vars :=
  mkVars (shardId v) x (get_records_res v) (loop v) (count v)
    (records v) (next_iterator v).
Definition set_get_records_res (x : Response) (v : Vars) : Vars :=
  mkVars (shardId v) (iterator v) x (loop v) (count v)
    (records v) (next_iterator v).
Definition set_loop (x : bool) (v : Vars) : Vars :=
  mkVars (shardId v) (iterator v) (get_records_res v) x (count v)
    (records v) (next_iterator v).
Definition set_count (x : Z) (v : Vars) : Vars :=
  mkVars (shardId v) (iterator v) (get_records_res v) (loop v) x
    (records v) (next_iterator v).
Definition set_records (x : list StreamRecord) (v : Vars) : Vars :=
  mkVars (shardId v) (iterator v) (get_records_res v) (loop v) (count v)
    x (next_iterator v).
Definition set_next_iterator (x : string) (v : Vars) : Vars :=
  mkVars (shardId v) (iterator v) (get_records_res v) (loop v) (count v)
    (records v) (Some x).

(** What a log shows: the records printed, and the cursors handed to
    [get_records], both in program order. *)
Definition record_of (e : Event) : option StreamRecord :=
  match e with EvPrint (RecordLine r) => Some r | _ => None end.
Definition cursor_of (e : Event) : option string :=
  match e with EvGetRecords it => Some it | _ => None end.

Definition emitted (l : list Event) : list StreamRecord := omap record_of l.
Definition fetched (l : list Event) : list string := omap cursor_of l.

Definition line_of (e : Event) : option Line :=
  match e with EvPrint l => Some l | _ => None end.
Definition printed (l : list Event) : list Line := omap line_of l.

Definition record_lines (rs : list StreamRecord) : list Event :=
  map (fun r => EvPrint (RecordLine r)) rs.

(** Whether the log reports a shard as closed. *)
Definition marked_closed (l : list Event) : bool :=
  existsb (fun e => match e with EvPrint (ShardClosed _) => true | _ => false end) l.

(** Variables before the cell has run. *)
Definition blank : Vars := mkVars "" "" (mkResponse [] None) false 0 [] None.

Definition inspect {A} (a : A) : {b : A | a = b} := exist _ a eq_refl.

(** A service for examples.  A cursor is a tally: the cursor of the
    n-th batch is n characters long.  Batch number [last] carries no next
    cursor; with [last = None] the shard stays open for ever. *)
Definition tally_service (last : option nat)
    (batch : nat -> list StreamRecord) (it : string) : result Response :=
  let n := String.length it in
  Ok (mkResponse (batch n)
        (if match last with Some k => (k <=? n)%nat | None => false end
         then None else Some (String "i" it))).

Definition moby : StreamRecord := mkRecord "MODIFY" "Herman Melville" "Moby Dick".
Definition ahab : StreamRecord :=
  mkRecord "INSERT" "Captain Ahab" "Tales from the bottom of the Sea".
Definition whale : StreamRecord := mkRecord "INSERT" "The Whale" "Winning".

(** Three batches, the middle one empty, then the shard is closed. *)
Definition demo_batches : list (list StreamRecord) := [[moby; ahab]; []; [whale]].
Definition demo_get_records : string -> result Response :=
  tally_service (Some 2%nat) (fun n => nth n demo_batches []).

(** A shard that stays open and never has data. *)
Definition idle_get_records : string -> result Response :=
  tally_service None (fun _ => []).

(** 151 empty batches, then one record in batch number 151, the last. *)
Definition late_batches : list (list StreamRecord) := repeat [] 151 ++ [[whale]].
Definition late_get_records : string -> result Response :=
  tally_service (Some 151%nat) (fun n => nth n late_batches []).

(** A service whose first [get_records] on the cursor ["ii"] is throttled. *)
Definition throttled_get_records (it : string) : result Response :=
  if String.eqb it "ii"
  then Raise (ClientError "ProvisionedThroughputExceededException")
  else demo_get_records it.

Definition one_iterator (arn shard ty : string) : result string := Ok "".

Section Service.

(** The streams client.  A cursor determines its answer (stable cursors);
    any call may raise. *)
Variable list_streams : result (list string).
Variable describe_stream : string -> result (list string).
Variable get_shard_iterator : string -> string -> string -> result string.
Variable get_records : string -> result Response.

Definition call_list_streams : M (list string) :=
  ([EvListStreams], list_streams).

Definition call_describe_stream (arn : string) : M (list string) :=
  ([EvDescribeStream arn], describe_stream arn).

Definition call_get_shard_iterator (arn shard ty : string) : M string :=
  ([EvGetShardIterator arn shard ty], get_shard_iterator arn shard ty).

Definition call_get_records (it : string) : M Response :=
  ([EvGetRecords it], get_records it).

(** [for record in get_records_res['Records']: print(...)] *)
Fixpoint print_records (rs : list StreamRecord) : M unit :=
  match rs with
  | [] => ret tt
  | r :: rest => print (RecordLine r) ;;; print_records rest
  end.

(** One pass through the body of [while loop:]. *)
Definition body (v : Vars) : M Vars :=
  let v := set_records (Records (get_records_res v)) v in
  (if 0 <? Z.of_nat (length (records v))
   then print (FoundRecords (count v)) ;;;
        print_records (Records (get_records_res v))
   else ret tt) ;;;
  match NextShardIterator (get_records_res v) with
  | Some nxt =>
      let v := set_count (count v + 1) v in
      let v := set_next_iterator nxt v in
      res <- call_get_records nxt ;;
      let v := set_get_records_res res v in
      if count v >? 150
      then print StillActive ;;; ret (set_loop false v)
      else ret v
  | None =>
      print (ShardClosed (count v)) ;;; ret (set_loop false v)
  end.

(** The loop ends by its own guards: a pass either clears [loop] or
    leaves [count] one higher and at most 150. *)
Definition polls_left (v : Vars) : nat :=
  if loop v then S (Z.to_nat (151 - count v)) else 0%nat.

(** [while loop: ...] *)
Equations? while_loop (v : Vars) : M Vars by wf (polls_left v) lt :=
  while_loop v with inspect (loop v) := {
    | exist _ false _ => ret v
    | exist _ true Hl with inspect (body v) := {
        | exist _ (l, Raise e) _ => (l, Raise e)
        | exist _ (l, Ok v') Hb =>
            let (l', r) := while_loop v' in (l ++ l', r) } }.
Proof.
  revert Hb. unfold body, polls_left. rewrite Hl.
  destruct (0 <? _); simpl;
    (destruct (NextShardIterator (get_records_res v)) as [nxt|]; simpl;
     [ unfold call_get_records, bind; simpl;
       destruct (get_records nxt) as [res|e]; simpl;
       [ destruct (count v + 1 >? 150) eqn:Hc; simpl
       | ] | ]).
  all: try (rewrite ?app_nil_r; intros H; inversion H; subst; clear H;
            simpl; rewrite ?Hl; simpl; lia).
  all: try (destruct (print_records _) as [lp [[]|e]]; simpl;
            rewrite ?app_nil_r; intros H; inversion H; subst; clear H;
            simpl; rewrite ?Hl; simpl; lia).
  all: try (destruct (print_records _) as [lp [[]|e']]; simpl;
            intros H; inversion H).
  all: try (intros H; inversion H).
Qed.

(** The state in which the loop of one shard is entered. *)
Definition entry (shard it : string) (res : Response) (v : Vars) : Vars :=
  set_count 0 (set_loop true (set_get_records_res res
    (set_iterator it (set_shardId shard v)))).

(** The body of [for shard in ...['Shards']:]. *)
Definition walk_shard (streamArn shard : string) (v : Vars) : M Vars :=
  let v := set_shardId shard v in
  it <- call_get_shard_iterator streamArn shard "TRIM_HORIZON" ;;
  let v := set_iterator it v in
  res <- call_get_records it ;;
  let v := set_get_records_res res v in
  print (Checking shard) ;;;
  let v := set_loop true v in
  let v := set_count 0 v in
  while_loop v.

Fixpoint for_shards (streamArn : string) (shards : list string) (v : Vars)
  : M Vars :=
  match shards with
  | [] => ret v
  | shard :: rest =>
      v' <- walk_shard streamArn shard v ;; for_shards streamArn rest v'
  end.

(** The whole cell.  [...['Streams'][0]] raises [IndexError] on an empty
    listing. *)
Definition walker_cell (v : Vars) : M Vars :=
  streams <- call_list_streams ;;
  streamArn <- match streams with
               | [] => ([], Raise (OtherError "IndexError"))
               | arn :: _ => ret arn
               end ;;
  shards <- call_describe_stream streamArn ;;
  v' <- for_shards streamArn shards v ;;
  print Done ;;; ret v'.

(** [n] passes through the loop body, one after the other. *)
Fixpoint passes (n : nat) (v : Vars) : M Vars :=
  match n with
  | O => ret v
  | S k => v' <- body v ;; passes k v'
  end.

(** *** Shapes of shards and of sequences of fetches *)

(** From the answer [r] on, the service hands out the batches [bs], one
    per fetch, and closes the shard with the last of them. *)
Fixpoint serves (r : Response) (bs : list (list StreamRecord)) : Prop :=
  match bs with
  | [] => False
  | b :: rest =>
      Records r = b /\
      match rest with
      | [] => NextShardIterator r = None
      | _ :: _ =>
          exists nxt r', NextShardIterator r = Some nxt /\
                         get_records nxt = Ok r' /\ serves r' rest
      end
  end.

Definition shard_serves (it0 : string) (bs : list (list StreamRecord)) : Prop :=
  exists r0, get_records it0 = Ok r0 /\ serves r0 bs.

(** The answer [k] fetches after the answer [r]. *)
Fixpoint later (k : nat) (r : Response) : option Response :=
  match k with
  | O => Some r
  | S k' =>
      match NextShardIterator r with
      | Some nxt =>
          match get_records nxt with
          | Ok r' => later k' r'
          | Raise _ => None
          end
      | None => None
      end
  end.

(** The cursor reached from [it] by following [k] next cursors. *)
Fixpoint cursor_at (k : nat) (it : string) : option string :=
  match k with
  | O => Some it
  | S k' =>
      match get_records it with
      | Ok r =>
          match NextShardIterator r with
          | Some nxt => cursor_at k' nxt
          | None => None
          end
      | Raise _ => None
      end
  end.

(** Each cursor of the list but the first is the next cursor that the
    fetch on its predecessor returned. *)
Fixpoint follows (cs : list string) : Prop :=
  match cs with
  | c :: rest =>
      match rest with
      | [] => True
      | c' :: _ =>
          (exists r, get_records c = Ok r /\ NextShardIterator r = Some c')
          /\ follows rest
      end
  | [] => True
  end.

(** Every fetch on a cursor of the shard answers with no records and a
    next cursor: [live] is a set of cursors that is never left. *)
Definition never_closes (it0 : string) : Prop :=
  exists live : string -> Prop,
    live it0 /\
    forall it, live it ->
      exists nxt, get_records it = Ok (mkResponse [] (Some nxt)) /\ live nxt.

(** The loop holds an empty answer whose next cursor is in [live]. *)
Definition idling (live : string -> Prop) (v : Vars) : Prop :=
  exists nxt, get_records_res v = mkResponse [] (Some nxt) /\ live nxt.

(** The service never hands out the same cursor twice along a shard. *)
Definition fresh_cursors (it0 : string) : Prop :=
  forall i j c, cursor_at i it0 = Some c -> cursor_at j it0 = Some c -> i = j.

(** What one pass prints before it looks for the next cursor. *)
Definition header (v : Vars) : list Event :=
  (if 0 <? Z.of_nat (length (Records (get_records_res v)))
   then [EvPrint (FoundRecords (count v))] else [])
  ++ record_lines (Records (get_records_res v)).

(** The variables after a pass that fetched [res] with the cursor [nxt]. *)
Definition advanced (nxt : string) (res : Response) (v : Vars) : Vars :=
  set_get_records_res res
    (set_next_iterator nxt
       (set_count (count v + 1)
          (set_records (Records (get_records_res v)) v))).

(** Two states of the variables that agree on what the loop reads before
    it writes, and two outcomes that agree in that sense. *)
Definition agree (v1 v2 : Vars) : Prop :=
  get_records_res v1 = get_records_res v2 /\ loop v1 = loop v2 /\
  count v1 = count v2.

Definition agree_result (r1 r2 : result Vars) : Prop :=
  match r1, r2 with
  | Ok a, Ok b => agree a b
  | Raise e1, Raise e2 => e1 = e2
  | _, _ => False
  end.

(** Whether a run ended in an exception, whatever its value. *)
Definition raised {A} (m : M A) : option exn :=
  match outcome m with Ok _ => None | Raise e => Some e end.

End Service.

End Walker.

Module Cells.

(** ** Items and tables *)

(** An attribute value: a string, a number or a set of strings. *)
Inductive AttrValue : Type :=
| AttrS (s : string)
| AttrN (n : Z)
| AttrSS (ss : list string).

#[global] Instance AttrValue_eq_dec : EqDecision AttrValue.
Proof. solve_decision. Defined.

(** An item is a dict from attribute names to values; a table is keyed by
    the pair (Author, Title); the service holds tables by name. *)
Abbreviation Item := (gmap string AttrValue).
Abbreviation Key := (string * string)%type.
Abbreviation Table := (gmap (string * string) (gmap string AttrValue)).
Abbreviation DB := (gmap string (gmap (string * string) (gmap string AttrValue))).

(** The two condition expressions the notebook sends. *)
Inductive Condition : Type :=
| AttributeNotExists (attr : string)
| AttributeEquals (attr : string) (val : AttrValue).

(** What a cell prints: a line of text, an exception, or an item. *)
Inductive Printed : Type :=
| PLine (s : string)
| PError (e : exn)
| PItem (i : Item).

(** ** The client interface of the table service

    Each call takes the service's state to a result and a new state.
    [update_item] is called with [ReturnValues = ALL_NEW] and answers with
    the item after the update. *)
Class TableService (S : Type) : Type := {
  create_table : string -> S -> result unit * S;
  wait_until_exists : string -> S -> result unit * S;
  put_item : string -> Item -> option Condition -> S -> result unit * S;
  update_item : string -> Key -> list (string * AttrValue) ->
                option Condition -> S -> result Item * S;
  delete_table : string -> S -> result unit * S;
  wait_until_not_exists : string -> S -> result unit * S
}.

(** ** The monad of a cell: service state, printed output, exceptions *)

Definition C (S A : Type) : Type := S -> (list Printed * result A) * S.

Definition ret {S A} (a : A) : C S A := fun s => (([], Ok a), s).

Definition bind {S A B} (m : C S A) (f : A -> C S B) : C S B :=
  fun s =>
    match m s with
    | ((out, Ok a), s') =>
        match f a s' with
        | ((out', r), s'') => ((out ++ out', r), s'')
        end
    | ((out, Raise e), s') => ((out, Raise e), s')
    end.

Declare Scope cell_scope.
Delimit Scope cell_scope with cell.
Notation "x <- m ;; k" := (bind m (fun x => k))
  (at level 100, m at next level, right associativity) : cell_scope.
Notation "m ;;; k" := (bind m (fun _ => k))
  (at level 100, right associativity) : cell_scope.
Local Open Scope cell_scope.

Definition print {S} (p : Printed) : C S unit := fun s => (([p], Ok tt), s).

(** A call to the service. *)
Definition call {S A} (op : S -> result A * S) : C S A :=
  fun s => let (r, s') := op s in (([], r), s').

(** [try: m except ClientError as ce: handler(ce.response['Error']['Code'])].
    Whatever the service did before it raised stays done; exceptions of
    other classes pass through. *)
Definition try_except_ClientError {S A}
    (m : C S A) (handler : string -> C S A) : C S A :=
  fun s =>
    match m s with
    | ((out, Raise (ClientError code)), s') =>
        match handler code s' with
        | ((out', r), s'') => ((out ++ out', r), s'')
        end
    | other => other
    end.

Definition books : string := "books".
Definition moby_key : Key := ("Herman Melville", "Moby Dick").

Section Notebook.

Context {S : Type} `{TableService S}.

(** The cell that creates the table. *)
Definition create_cell : C S unit :=
  try_except_ClientError
    (print (PLine "Creating table...") ;;;
     call (create_table books) ;;;
     print (PLine "Waiting for table to become active...") ;;;
     call (wait_until_exists books) ;;;
     print (PLine "Table ready!"))
    (fun code =>
       if String.eqb code "ResourceInUseException"
       then print (PLine "Table already exists. Nothing to do.")
       else print (PError (ClientError code))).

(** The conditional put that must not clobber an existing item. *)
Definition conditional_put_cell : C S unit :=
  try_except_ClientError
    (call (put_item books
             (<["Author" := AttrS "Jill"]>
                (<["Title" := AttrS "Ice Cream Part 2"]> ∅))
             (Some (AttributeNotExists "Title"))))
    (fun code =>
       if String.eqb code "ConditionalCheckFailedException"
       then print (PLine "The item already exists. PutItem Canceled. ")
       else ret tt).

(** The request both conditional-update cells send. *)
Definition conditional_update : S -> result Item * S :=
  update_item books moby_key
    [("Rating", AttrN 1); ("Version", AttrN 3)]
    (Some (AttributeEquals "Version" (AttrN 2))).

(** The first conditional update: no handler around the call. *)
Definition conditional_update_cell : C S unit :=
  updated_item <- call conditional_update ;;
  print (PItem updated_item).

(** The same conditional update once more, this time guarded. *)
Definition conditional_update_again_cell : C S unit :=
  try_except_ClientError
    (updated_item <- call conditional_update ;;
     print (PItem updated_item))
    (fun code =>
       if String.eqb code "ConditionalCheckFailedException"
       then print (PLine "Exception Condition Triggered as expected") ;;;
            print (PLine
              "Version attribute is not the expected value ... the item must have been updated")
       else print (PError (ClientError code))).

(** The cell that deletes the table. *)
Definition delete_cell : C S unit :=
  print (PLine "Deleting table...") ;;;
  try_except_ClientError
    (call (delete_table books) ;;;
     print (PLine "Waiting for table to be deleted...") ;;;
     call (wait_until_not_exists books) ;;;
     print (PLine "Table deleted!"))
    (fun code =>
       if String.eqb code "ResourceNotFoundException"
       then print (PLine "No table found. Nothing to do.")
       else ret tt).

End Notebook.

(** ** A reference service *)

(** Modelled from the spec: the remote table service, which is not part of
    the repository.  [holds] is the predicate of a conditional write,
    evaluated on the current item: a write is accepted only if it holds. *)
Definition holds (cond : option Condition) (current : option Item) : bool :=
  match cond with
  | None => true
  | Some (AttributeNotExists attr) =>
      match current with
      | Some item => bool_decide (item !! attr = None)
      | None => true
      end
  | Some (AttributeEquals attr val) =>
      match current with
      | Some item => bool_decide (item !! attr = Some val)
      | None => false
      end
  end.

Definition key_of (item : Item) : option Key :=
  match item !! "Author", item !! "Title" with
  | Some (AttrS a), Some (AttrS t) => Some (a, t)
  | _, _ => None
  end.

Definition key_attributes (k : Key) : Item :=
  <["Author" := AttrS (fst k)]> (<["Title" := AttrS (snd k)]> ∅).

Definition apply_sets (sets : list (string * AttrValue)) (item : Item) : Item :=
  fold_left (fun acc kv => <[fst kv := snd kv]> acc) sets item.

(** Modelled from the spec: a table create on an existing name answers
    with the already-exists error and changes nothing. *)
Definition ref_create_table (name : string) (db : DB) : result unit * DB :=
  match db !! name with
  | Some _ => (Raise (ClientError "ResourceInUseException"), db)
  | None => (Ok tt, <[name := ∅]> db)
  end.

(** Modelled from the spec: an operation on a missing table answers with
    the not-found error and changes nothing. *)
Definition ref_delete_table (name : string) (db : DB) : result unit * DB :=
  match db !! name with
  | Some _ => (Ok tt, delete name db)
  | None => (Raise (ClientError "ResourceNotFoundException"), db)
  end.

Definition ref_wait (name : string) (db : DB) : result unit * DB := (Ok tt, db).

(** Modelled from the spec: a put, optionally conditioned; a refused
    condition answers with ConditionalCheckFailed and leaves the table as
    it was. *)
Definition ref_put_item (name : string) (item : Item)
    (cond : option Condition) (db : DB) : result unit * DB :=
  match db !! name with
  | None => (Raise (ClientError "ResourceNotFoundException"), db)
  | Some table =>
      match key_of item with
      | None => (Raise (ClientError "ValidationException"), db)
      | Some k =>
          if holds cond (table !! k)
          then (Ok tt, <[name := <[k := item]> table]> db)
          else (Raise (ClientError "ConditionalCheckFailedException"), db)
      end
  end.

(** Modelled from the spec: an update that sets attributes, optionally
    conditioned on the current item (the version-conditioned
    compare-and-swap); it answers with the item after the update, or with
    ConditionalCheckFailed, leaving the item as it was. *)
Definition ref_update_item (name : string) (k : Key)
    (sets : list (string * AttrValue)) (cond : option Condition) (db : DB)
  : result Item * DB :=
  match db !! name with
  | None => (Raise (ClientError "ResourceNotFoundException"), db)
  | Some table =>
      if holds cond (table !! k)
      then let item := apply_sets sets (default (key_attributes k) (table !! k)) in
           (Ok item, <[name := <[k := item]> table]> db)
      else (Raise (ClientError "ConditionalCheckFailedException"), db)
  end.

(** Modelled from the spec: the remote table service, which is not part of
    the repository.  A table create on an existing name answers with the
    already-exists error, an operation on a missing table with the
    not-found error; a conditional write is accepted only if its predicate
    holds of the current item and answers with ConditionalCheckFailed
    otherwise, leaving the item as it was. *)
#[global] Instance ref_service : TableService DB := {|
  create_table := ref_create_table;
  wait_until_exists := ref_wait;
  put_item := ref_put_item;
  update_item := ref_update_item;
  delete_table := ref_delete_table;
  wait_until_not_exists := ref_wait
|}.

(** The reference service, except that every [put_item] is throttled. *)
Definition throttled_service : TableService DB := {|
  create_table := ref_create_table;
  wait_until_exists := ref_wait;
  put_item := fun _ _ _ db =>
    (Raise (ClientError "ProvisionedThroughputExceededException"), db);
  update_item := ref_update_item;
  delete_table := ref_delete_table;
  wait_until_not_exists := ref_wait
|}.

(** The two starting points of the examples: no table at all, and the
    table with one book at version 2. *)
Definition moby_item : Item :=
  <["Version" := AttrN 2]> (<["Rating" := AttrN 5]> (key_attributes moby_key)).
Definition one_book : DB := {[ books := {[ moby_key := moby_item ]} ]}.

End Cells.

(** * Further observations on the walker's log *)

Module WalkerLog.
Import Walker.


(** The requests for a shard iterator in a log, in program order. *)
Definition asked_of (e : Event) : option (string * string * string) :=
  match e with
  | EvGetShardIterator arn shard ty => Some (arn, shard, ty)
  | _ => None
  end.
Definition asked (l : list Event) : list (string * string * string) :=
  omap asked_of l.

(** The fetches the loop can still make from a state with [loop] set. *)
Definition fetch_budget (v : Vars) : nat := Z.to_nat (Z.max 1 (151 - count v)).

(** The lines of the loop on a shard served as the batches [bs], when the
    first of them is examined with the counter at [c]. *)
Fixpoint shard_report (c : Z) (bs : list (list StreamRecord)) : list Line :=
  match bs with
  | [] => []
  | b :: rest =>
      (if 0 <? Z.of_nat (length b) then [FoundRecords c] else [])
      ++ map RecordLine b
      ++ match rest with
         | [] => [ShardClosed c]
         | _ :: _ => shard_report (c + 1) rest
         end
  end.

(** The reports on the state of a shard in a log. *)
Definition report_of (e : Event) : option Line :=
  match e with
  | EvPrint (ShardClosed c) => Some (ShardClosed c)
  | EvPrint StillActive => Some StillActive
  | _ => None
  end.
Definition reports (l : list Event) : list Line := omap report_of l.

(** Whether an event is the final line of the cell. *)
Definition is_done (e : Event) : bool :=
  match e with EvPrint Done => true | _ => false end.

(** A listing with one stream, and a description with two shards. *)
Definition demo_list_streams : result (list string) := Ok ["arn:demo"].
Definition demo_describe_stream (arn : string) : result (list string) :=
  Ok ["shard-0"; "shard-1"].

Section Failures.

Variable list_streams : result (list string).
Variable describe_stream : string -> result (list string).
Variable get_shard_iterator : string -> string -> string -> result string.
Variable get_records : string -> result Response.


End Failures.

End WalkerLog.

(** * The cells that read one batch by hand *)

Module Manual.
Import Walker.
Local Open Scope walker_scope.

(** ["{:<n}".format(s)]: [s], padded on the right with spaces to [n]
    characters; a longer [s] is left as it is.  A string is taken as the
    sequence of its characters, one [ascii] each. *)
Fixpoint spaces (n : nat) : string :=
  match n with
  | O => ""
  | S k => String " " (spaces k)
  end.

Definition ljust (n : nat) (s : string) : string :=
  s +:+ spaces (n - String.length s).

(** [table_fmt = "{:<12} {:<30} {:<20}"] *)
Definition table_fmt (a b c : string) : string :=
  ljust 12 a +:+ " " +:+ ljust 30 b +:+ " " +:+ ljust 20 c.

(** The cell that prints the records of the batch just read. *)
Definition print_records_cell (records : list StreamRecord) : list string :=
  if 0 <? Z.of_nat (length records)
  then table_fmt "Event" "Author" "Title"
       :: map (fun record =>
                 table_fmt (eventName record) (author record) (title record))
            records
  else ["No records found on this iteration"].

Section Service.

Variable get_shard_iterator : string -> string -> string -> result string.
Variable get_records : string -> result Response.

(** The cell that asks for the iterator of the shard picked before:
    [iterator = ddbstreams.get_shard_iterator(StreamArn=stream,
    ShardId=shardId, ...)['ShardIterator']]. *)
Definition get_iterator_cell (stream : string) (v : Vars) : M Vars :=
  it <- call_get_shard_iterator get_shard_iterator stream (shardId v)
          "TRIM_HORIZON" ;;
  ret (set_iterator it v).

(** The cell that reads one batch.  [get_records_res['NextShardIterator']]
    raises [KeyError] when the key is absent. *)
Definition get_records_cell (v : Vars) : M Vars :=
  res <- call_get_records get_records (iterator v) ;;
  let v := set_get_records_res res v in
  match NextShardIterator res with
  | Some nxt =>
      let v := set_next_iterator nxt v in
      ret (set_records (Records res) v)
  | None => ([], Raise (OtherError "KeyError: 'NextShardIterator'"))
  end.

End Service.

End Manual.

(** * The cell that loads the books in a batch *)

Module BatchWrite.

(** A value in a book of the fixture: a string, a number or a list of
    strings.  An item attribute is such a value, or a set of strings. *)
Inductive BookValue : Type :=
| BStr (s : string)
| BNum (n : Z)
| BStrs (l : list string).

Inductive ItemValue : Type :=
| Plain (b : BookValue)
| StringSet (s : gset string).

Abbreviation Book := (gmap string BookValue).
Abbreviation Item := (gmap string ItemValue).

Inductive Event : Type :=
| Print (s : string)
| PutItem (item : Item).

Definition puts_of (e : Event) : option Item :=
  match e with PutItem item => Some item | Print _ => None end.
Definition puts (l : list Event) : list Item := omap puts_of l.

(** [book[key]] *)
Definition getitem (book : Book) (key : string) : result BookValue :=
  match book !! key with
  | Some x => Ok x
  | None => Raise (OtherError ("KeyError: '" +:+ key +:+ "'"))
  end.

(** The characters of a string, each as a string. *)
Fixpoint chars (s : string) : list string :=
  match s with
  | EmptyString => []
  | String c rest => String c "" :: chars rest
  end.

(** [set(x)]: the elements of a list, the characters of a string; a number
    is not iterable. *)
Definition py_set (x : BookValue) : result (gset string) :=
  match x with
  | BStrs l => Ok (list_to_set l)
  | BStr s => Ok (list_to_set (chars s))
  | BNum _ => Raise (OtherError "TypeError: 'int' object is not iterable")
  end.

(** The body of the loop up to the call of [batch.put_item]: the item
    built from one book. *)
Definition item_of (book : Book) : result Item :=
  match getitem book "Author" with
  | Raise e => Raise e
  | Ok a =>
      match getitem book "Title" with
      | Raise e => Raise e
      | Ok t =>
          let item : Item := <["Title" := Plain t]> (<["Author" := Plain a]> ∅) in
          match (match book !! "Editions" with
                 | Some x =>
                     match py_set x with
                     | Ok s => Ok (<["Editions" := StringSet s]> item)
                     | Raise e => Raise e
                     end
                 | None => Ok item
                 end) with
          | Raise e => Raise e
          | Ok item =>
              Ok (match book !! "Rating" with
                  | Some r => <["Rating" := Plain r]> item
                  | None => item
                  end)
          end
      end
  end.

Section Writer.

(** The batch writer sends what it has buffered from time to time inside
    [put_item], and the rest on leaving the [with] block; either may raise.
    [put_raises done item] is the exception, if any, of the call
    [batch.put_item(Item=item)] after the calls for [done]; [exit_raises done]
    is that of leaving the block. *)
Variable put_raises : list Item -> Item -> option exn.
Variable exit_raises : list Item -> option exn.

(** [for book in books: ...], after the puts [done]. *)
Fixpoint load_books (books : list Book) (done : list Item)
  : list Event * result unit :=
  match books with
  | [] => ([], Ok tt)
  | book :: rest =>
      match item_of book with
      | Raise e => ([], Raise e)
      | Ok item =>
          match put_raises done item with
          | Some e => ([PutItem item], Raise e)
          | None =>
              let (l, r) := load_books rest (done ++ [item]) in
              (PutItem item :: l, r)
          end
      end
  end.

(** The whole cell.  Leaving the [with] block sends the buffered items also
    when the loop has raised; an exception of that last send replaces the
    one of the loop. *)
Definition batch_cell (books : list Book) : list Event * result unit :=
  let (l, r) := load_books books [] in
  match exit_raises (puts l) with
  | Some e => (Print "Batch writing records to table" :: l, Raise e)
  | None =>
      match r with
      | Raise e => (Print "Batch writing records to table" :: l, Raise e)
      | Ok _ =>
          (Print "Batch writing records to table" :: l
             ++ [Print "Done loading table"], Ok tt)
      end
  end.

End Writer.

(** A writer that never fails, and two books. *)
Definition never_raises_put (done : list Item) (item : Item) : option exn := None.
Definition never_raises_exit (done : list Item) : option exn := None.

Definition invisible_man : Book :=
  <["Author" := BStr "H.G. Wells"]>
    (<["Title" := BStr "The Invisible Man"]>
       (<["Editions" := BStrs ["Kindle"; "Paperback"; "Kindle"]]>
          (<["Rating" := BNum 5]> (<["Pages" := BNum 192]> ∅)))).

Definition invisible_man_item : Item :=
  <["Author" := Plain (BStr "H.G. Wells")]>
    (<["Title" := Plain (BStr "The Invisible Man")]>
       (<["Editions" := StringSet {[ "Kindle"; "Paperback" ]}]>
          (<["Rating" := Plain (BNum 5)]> ∅))).

Definition untitled : Book := <["Author" := BStr "Anonymous"]> ∅.

End BatchWrite.

(** * The shard walker: proofs *)

Module WalkerProofs.
Import Walker.
Local Open Scope walker_scope.

Section Proofs.

Variable get_shard_iterator : string -> string -> string -> result string.
Variable get_records : string -> result Response.

(** *** The monad *)

Lemma bind_ret_l {A B} (a : A) (f : A -> M B) : bind (ret a) f = f a.
Proof. unfold bind, ret. destruct (f a). reflexivity. Qed.

Lemma bind_assoc {A B D} (m : M A) (f : A -> M B) (g : B -> M D) :
  bind (bind m f) g = bind m (fun a => bind (f a) g).
Proof.
  destruct m as [l [a|e]]; simpl; [|reflexivity].
  destruct (f a) as [l1 [b|e]]; simpl; [|reflexivity].
  destruct (g b) as [l2 r]. rewrite app_assoc. reflexivity.
Qed.

Lemma bind_ext {A B} (m : M A) (f g : A -> M B) :
  (forall a, f a = g a) -> bind m f = bind m g.
Proof. intros E. destruct m as [l [a|e]]; simpl; [rewrite E|]; reflexivity. Qed.

Lemma emitted_app l1 l2 : emitted (l1 ++ l2) = emitted l1 ++ emitted l2.
Proof. apply omap_app. Qed.

Lemma fetched_app l1 l2 : fetched (l1 ++ l2) = fetched l1 ++ fetched l2.
Proof. apply omap_app. Qed.

Lemma emitted_record_lines rs : emitted (record_lines rs) = rs.
Proof. induction rs as [|r rs IH]; simpl; [|rewrite IH]; reflexivity. Qed.

Lemma fetched_record_lines rs : fetched (record_lines rs) = [].
Proof. induction rs as [|r rs IH]; simpl; [|rewrite IH]; reflexivity. Qed.

Lemma emitted_header v : emitted (header v) = Records (get_records_res v).
Proof.
  unfold header. rewrite emitted_app, emitted_record_lines.
  destruct (0 <? _); reflexivity.
Qed.

Lemma fetched_header v : fetched (header v) = [].
Proof.
  unfold header. rewrite fetched_app, fetched_record_lines.
  destruct (0 <? _); reflexivity.
Qed.

(** *** The loop body and the loop *)

Lemma print_records_eq rs : print_records rs = (record_lines rs, Ok tt).
Proof.
  induction rs as [|r rest IH]; [reflexivity|].
  simpl. rewrite IH. reflexivity.
Qed.

(** The body of the loop, branch by branch. *)
Lemma body_eq v :
  body get_records v =
  match NextShardIterator (get_records_res v) with
  | None =>
      (header v ++ [EvPrint (ShardClosed (count v))],
       Ok (set_loop false (set_records (Records (get_records_res v)) v)))
  | Some nxt =>
      match get_records nxt with
      | Raise e => (header v ++ [EvGetRecords nxt], Raise e)
      | Ok res =>
          if count v + 1 >? 150
          then (header v ++ [EvGetRecords nxt; EvPrint StillActive],
                Ok (set_loop false (advanced nxt res v)))
          else (header v ++ [EvGetRecords nxt], Ok (advanced nxt res v))
      end
  end.
Proof.
  unfold body, header, advanced, call_get_records. simpl.
  rewrite print_records_eq.
  destruct (Records (get_records_res v)) as [|r rs]; simpl;
    destruct (NextShardIterator (get_records_res v)) as [nxt|]; simpl;
    try destruct (get_records nxt) as [res|e]; simpl;
    try destruct (count v + 1 >? 150); simpl;
    rewrite ?app_nil_r; reflexivity.
Qed.

Lemma while_loop_eq v :
  while_loop get_records v =
  if loop v then bind (body get_records v) (while_loop get_records) else ret v.
Proof.
  funelim (while_loop get_records v);
    match goal with E : loop _ = _ |- _ => rewrite E end;
    try match goal with E : body _ _ = _ |- _ => unfold bind; rewrite E end;
    reflexivity.
Qed.

Lemma while_loop_stopped v : loop v = false -> while_loop get_records v = ret v.
Proof. intros E. rewrite while_loop_eq, E. reflexivity. Qed.

Lemma body_decreases v l v' :
  loop v = true -> body get_records v = (l, Ok v') ->
  (polls_left v' < polls_left v)%nat.
Proof.
  intros Hl. rewrite body_eq. unfold polls_left. rewrite Hl.
  destruct (NextShardIterator (get_records_res v)) as [nxt|].
  - destruct (get_records nxt) as [res|e]; [|discriminate].
    destruct (count v + 1 >? 150) eqn:Hc; intros E; inversion E; subst; simpl.
    + lia.
    + rewrite Hl. lia.
  - intros E. inversion E. subst. simpl. lia.
Qed.

(** Induction along the passes of the loop. *)
Lemma while_ind (P : Vars -> Prop) :
  (forall v,
     (forall l v', loop v = true -> body get_records v = (l, Ok v') -> P v') ->
     P v) ->
  forall v, P v.
Proof.
  intros step v.
  induction v as [v IH] using (well_founded_induction
    (Wf_nat.well_founded_ltof _ polls_left)).
  apply step. intros l v' Hl Hb. apply IH. eapply body_decreases; eauto.
Qed.

Lemma walk_shard_eq arn shard v :
  walk_shard get_shard_iterator get_records arn shard v =
  match get_shard_iterator arn shard "TRIM_HORIZON" with
  | Raise e => ([EvGetShardIterator arn shard "TRIM_HORIZON"], Raise e)
  | Ok it =>
      match get_records it with
      | Raise e =>
          ([EvGetShardIterator arn shard "TRIM_HORIZON"; EvGetRecords it],
           Raise e)
      | Ok res =>
          let (l, r) := while_loop get_records (entry shard it res v) in
          (EvGetShardIterator arn shard "TRIM_HORIZON" :: EvGetRecords it
             :: EvPrint (Checking shard) :: l, r)
      end
  end.
Proof.
  unfold walk_shard, call_get_shard_iterator, call_get_records, entry.
  simpl. destruct (get_shard_iterator _ _ _) as [it|e]; [|reflexivity].
  simpl. destruct (get_records it) as [res|e]; [|reflexivity].
  simpl. destruct (while_loop _ _). reflexivity.
Qed.

(** *** Shards that close within the polling limit *)

Lemma while_loop_serves bs :
  forall v,
    loop v = true ->
    count v + Z.of_nat (length bs) <= 151 ->
    serves get_records (get_records_res v) bs ->
    exists l v', while_loop get_records v = (l, Ok v') /\ emitted l = concat bs.
Proof.
  induction bs as [|b rest IH]; intros v Hl Hc Hs; [contradiction|].
  destruct Hs as [Hb Hrest].
  rewrite while_loop_eq, Hl, body_eq.
  destruct rest as [|b2 rest'].
  - rewrite Hrest. unfold bind.
    rewrite while_loop_stopped by reflexivity. simpl.
    eexists _, _. split; [reflexivity|].
    rewrite !app_nil_r, emitted_app, emitted_header, Hb. apply app_nil_r.
  - destruct Hrest as (nxt & r' & Hn & Hg & Hs').
    rewrite Hn, Hg.
    assert (Hlim : (count v + 1 >? 150) = false).
    { simpl length in Hc. lia. }
    rewrite Hlim.
    destruct (IH (advanced nxt r' v)) as (l & v' & Hw & He).
    + exact Hl.
    + simpl in *. lia.
    + exact Hs'.
    + unfold bind. rewrite Hw. eexists _, _. split; [reflexivity|].
      rewrite !emitted_app, emitted_header, Hb, He. simpl.
      rewrite app_nil_r. reflexivity.
Qed.

(** C1 (amended): for every shard that the service returns as at most 151
    batches, the last of which closes the shard, the walker started at the
    trim horizon prints exactly the records of the batches, batch after
    batch and in the order within each batch, none twice and none left
    out, and ends without an exception. *)
Theorem walker_emits_all_records arn shard v it0 bs :
  get_shard_iterator arn shard "TRIM_HORIZON" = Ok it0 ->
  shard_serves get_records it0 bs ->
  (length bs <= 151)%nat ->
  emitted (trace (walk_shard get_shard_iterator get_records arn shard v))
    = concat bs
  /\ raised (walk_shard get_shard_iterator get_records arn shard v) = None.
Proof.
  intros Hit (r0 & Hr0 & Hs) Hlen.
  rewrite walk_shard_eq, Hit, Hr0.
  destruct (while_loop_serves bs (entry shard it0 r0 v)) as (l & v' & Hw & He).
  - reflexivity.
  - simpl. lia.
  - exact Hs.
  - rewrite Hw. unfold raised, outcome, trace. simpl. split; [exact He|reflexivity].
Qed.

(** *** Shards that never close *)

Lemma passes_add a b : forall v,
  passes get_records (a + b) v
  = bind (passes get_records a v) (passes get_records b).
Proof.
  induction a as [|a IH]; intros v.
  - change (passes get_records (0 + b) v) with (passes get_records b v).
    change (passes get_records 0 v) with (ret v).
    rewrite bind_ret_l. reflexivity.
  - change (passes get_records (Datatypes.S a + b) v)
      with (bind (body get_records v) (passes get_records (a + b))).
    change (passes get_records (Datatypes.S a) v)
      with (bind (body get_records v) (passes get_records a)).
    rewrite bind_assoc. apply bind_ext. intros v'. apply IH.
Qed.

(** As long as every pass so far has left [loop] set, the loop is still
    running. *)
Lemma while_loop_passes k : forall v,
  (forall j, (j < k)%nat ->
     exists l vj, passes get_records j v = (l, Ok vj) /\ loop vj = true) ->
  while_loop get_records v
  = bind (passes get_records k v) (while_loop get_records).
Proof.
  induction k as [|k IH]; intros v H.
  - change (passes get_records 0 v) with (ret v).
    rewrite bind_ret_l. reflexivity.
  - destruct (H 0%nat) as (l0 & v0 & E0 & Hl0); [lia|].
    inversion E0; subst. rewrite while_loop_eq, Hl0. simpl passes.
    rewrite bind_assoc.
    destruct (body get_records v0) as [lb [v'|e]] eqn:Hb; [|reflexivity].
    simpl. rewrite <- IH; [reflexivity|].
    intros j Hj. destruct (H (Datatypes.S j)) as (l & vj & E & Hl); [lia|].
    simpl in E. rewrite Hb in E. simpl in E.
    destruct (passes get_records j v') as [l' r'].
    inversion E; subst. eauto.
Qed.

Section Idle.

Variable live : string -> Prop.
Hypothesis live_idle : forall it, live it ->
  exists nxt, get_records it = Ok (mkResponse [] (Some nxt)) /\ live nxt.

Lemma passes_idle k : forall v,
  count v + Z.of_nat k <= 150 -> idling live v ->
  exists l v',
    passes get_records k v = (l, Ok v') /\
    loop v' = loop v /\ count v' = count v + Z.of_nat k /\ idling live v' /\
    printed l = [] /\ length (fetched l) = k.
Proof.
  induction k as [|k IH]; intros v Hc Hi.
  - exists [], v. simpl. repeat split; try reflexivity; [lia|exact Hi].
  - destruct Hi as (nxt & Hres & Hlive).
    destruct (live_idle nxt Hlive) as (nxt2 & Hg & Hlive2).
    simpl passes. rewrite body_eq. unfold header. rewrite Hres. simpl.
    rewrite Hg.
    replace (count v + 1 >? 150) with false by lia.
    destruct (IH (advanced nxt (mkResponse [] (Some nxt2)) v))
      as (l & v' & Hp & Hl & Hcnt & Hi' & Hpr & Hf).
    + simpl. lia.
    + exists nxt2. split; [reflexivity|exact Hlive2].
    + unfold bind. rewrite Hp. eexists _, _. split; [reflexivity|].
      simpl in Hl, Hcnt. repeat split.
      * exact Hl.
      * lia.
      * exact Hi'.
      * simpl. exact Hpr.
      * simpl. rewrite Hf. reflexivity.
Qed.

Lemma last_pass_idle v :
  count v = 150 -> idling live v ->
  exists nxt res,
    body get_records v
    = ([EvGetRecords nxt; EvPrint StillActive],
       Ok (set_loop false (advanced nxt res v))).
Proof.
  intros Hc (nxt & Hres & Hlive).
  destruct (live_idle nxt Hlive) as (nxt2 & Hg & _).
  rewrite body_eq. unfold header. rewrite Hres. simpl. rewrite Hg, Hc. simpl.
  eauto.
Qed.

End Idle.

(** C2 (amended): on a shard that never closes (every fetch answers with
    no records and a next cursor) the loop of the shard ends after exactly
    151 passes: after each of the first 150 passes [loop] is still set, the
    151st pass raises [count] to 151, which exceeds the bound 150, prints
    the one line that the shard is still active at the polling limit and
    clears [loop]; the walk of the shard ends without an exception. *)
Theorem never_closing_shard_polls_151 arn shard v it0 :
  get_shard_iterator arn shard "TRIM_HORIZON" = Ok it0 ->
  never_closes get_records it0 ->
  exists r0 l v',
    get_records it0 = Ok r0 /\
    (forall k, (k <= 150)%nat ->
       exists lk vk,
         passes get_records k (entry shard it0 r0 v) = (lk, Ok vk) /\
         loop vk = true /\ count vk = Z.of_nat k) /\
    passes get_records 151 (entry shard it0 r0 v) = (l, Ok v') /\
    loop v' = false /\ count v' = 151 /\
    while_loop get_records (entry shard it0 r0 v) = (l, Ok v') /\
    printed l = [StillActive] /\ length (fetched l) = 151%nat /\
    walk_shard get_shard_iterator get_records arn shard v
    = (EvGetShardIterator arn shard "TRIM_HORIZON" :: EvGetRecords it0
         :: EvPrint (Checking shard) :: l, Ok v').
Proof.
  intros Hit (live & Hl0 & Hlive).
  destruct (Hlive it0 Hl0) as (nxt & Hg & Hn).
  set (r0 := mkResponse [] (Some nxt)) in *.
  set (v0 := entry shard it0 r0 v).
  assert (Hi0 : idling live v0) by (exists nxt; split; [reflexivity|exact Hn]).
  assert (Hsteps : forall k, (k <= 150)%nat ->
            exists lk vk,
              passes get_records k v0 = (lk, Ok vk) /\
              loop vk = true /\ count vk = Z.of_nat k /\ idling live vk /\
              printed lk = [] /\ length (fetched lk) = k).
  { intros k Hk.
    destruct (passes_idle live Hlive k v0) as (lk & vk & Hp & Hl & Hc & Hi & Hpr & Hf).
    - simpl. lia.
    - exact Hi0.
    - exists lk, vk. simpl in Hl, Hc. repeat split; auto. }
  destruct (Hsteps 150%nat) as (l150 & v150 & Hp & Hl & Hc & Hi & Hpr & Hf);
    [lia|].
  destruct (last_pass_idle live Hlive v150) as (nx & res & Hb); [lia|exact Hi|].
  assert (H151 : passes get_records 151 v0
                 = (l150 ++ [EvGetRecords nx; EvPrint StillActive],
                    Ok (set_loop false (advanced nx res v150)))).
  { change 151%nat with (150 + 1)%nat. rewrite passes_add, Hp.
    simpl. rewrite Hb. simpl. reflexivity. }
  assert (Hw : while_loop get_records v0
               = (l150 ++ [EvGetRecords nx; EvPrint StillActive],
                  Ok (set_loop false (advanced nx res v150)))).
  { rewrite (while_loop_passes 151).
    - rewrite H151. unfold bind.
      rewrite while_loop_stopped by reflexivity. simpl.
      rewrite app_nil_r. reflexivity.
    - intros j Hj. destruct (Hsteps j) as (lj & vj & Hpj & Hlj & _); [lia|].
      eauto. }
  exists r0, (l150 ++ [EvGetRecords nx; EvPrint StillActive]),
    (set_loop false (advanced nx res v150)).
  split; [exact Hg|]. split.
  { intros k Hk. destruct (Hsteps k Hk) as (lk & vk & Hpk & Hlk & Hck & _).
    eauto. }
  split; [exact H151|]. split; [reflexivity|]. split; [simpl; lia|].
  split; [exact Hw|]. split.
  { unfold printed in *. rewrite omap_app, Hpr. reflexivity. }
  split.
  { rewrite fetched_app, length_app, Hf. reflexivity. }
  rewrite walk_shard_eq, Hit, Hg. fold v0. rewrite Hw. reflexivity.
Qed.

(** *** A pass over an empty batch *)

(** C3 (amended): a pass of the loop over an answer with no records and a
    next cursor prints nothing and calls [get_records] once, with the
    returned cursor; with [count] below 150 before the pass, the pass
    leaves [count] one higher and [loop] as it was, so the loop goes on
    with the answer to that fetch. *)
Theorem empty_batch_polls_on v nxt :
  Records (get_records_res v) = [] ->
  NextShardIterator (get_records_res v) = Some nxt ->
  count v < 150 ->
  body get_records v
  = ([EvGetRecords nxt],
     match get_records nxt with
     | Ok res => Ok (advanced nxt res v)
     | Raise e => Raise e
     end)
  /\ printed (trace (body get_records v)) = []
  /\ forall res, get_records nxt = Ok res ->
       count (advanced nxt res v) = count v + 1 /\
       loop (advanced nxt res v) = loop v /\
       get_records_res (advanced nxt res v) = res /\
       next_iterator (advanced nxt res v) = Some nxt.
Proof.
  intros Hr Hn Hc.
  assert (E : body get_records v
              = ([EvGetRecords nxt],
                 match get_records nxt with
                 | Ok res => Ok (advanced nxt res v)
                 | Raise e => Raise e
                 end)).
  { rewrite body_eq, Hn. unfold header. rewrite Hr. simpl.
    replace (count v + 1 >? 150) with false by lia.
    destruct (get_records nxt); reflexivity. }
  split; [exact E|]. split; [rewrite E; reflexivity|].
  intros res _. repeat split.
Qed.

(** *** The cursors handed to [get_records] *)

(** The fetches of the loop start with the next cursor of the answer the
    loop holds, and each of them follows from the one before. *)
Lemma while_loop_follows : forall v,
  match fetched (trace (while_loop get_records v)) with
  | [] => True
  | c :: _ => NextShardIterator (get_records_res v) = Some c
  end
  /\ follows get_records (fetched (trace (while_loop get_records v))).
Proof.
  induction v as [v IH] using while_ind.
  rewrite while_loop_eq.
  destruct (loop v) eqn:Hl; [|split; exact I].
  rewrite body_eq.
  destruct (NextShardIterator (get_records_res v)) as [nxt|] eqn:Hn.
  - destruct (get_records nxt) as [res|e] eqn:Hg.
    + destruct (count v + 1 >? 150) eqn:Hc.
      * unfold bind. rewrite while_loop_stopped by reflexivity.
        unfold ret, trace. simpl fst.
        rewrite !fetched_app, fetched_header. simpl. auto.
      * specialize (IH (header v ++ [EvGetRecords nxt]) (advanced nxt res v)
                      eq_refl).
        rewrite body_eq, Hn, Hg, Hc in IH. specialize (IH eq_refl).
        unfold bind.
        destruct (while_loop get_records (advanced nxt res v)) as [l' r'].
        unfold trace in *. simpl fst in *.
        rewrite !fetched_app, fetched_header. simpl.
        destruct IH as [Hhd Hfol]. split; [reflexivity|].
        destruct (fetched l') as [|c' cs']; [exact I|].
        split; [|exact Hfol]. exists res. split; [exact Hg|exact Hhd].
    + unfold bind, trace. simpl fst.
      rewrite !fetched_app, fetched_header. simpl. auto.
  - unfold bind. rewrite while_loop_stopped by reflexivity.
    unfold ret, trace. simpl fst.
    rewrite !fetched_app, fetched_header. simpl. auto.
Qed.

Lemma follows_cursor_at cs : forall it0,
  head cs = Some it0 -> follows get_records cs ->
  forall i c, cs !! i = Some c -> cursor_at get_records i it0 = Some c.
Proof.
  induction cs as [|c0 rest IH]; intros it0 Hh Hf i c Hi; [discriminate|].
  simpl in Hh. inversion Hh; subst c0. clear Hh.
  destruct i as [|i]; simpl in Hi.
  - exact Hi.
  - destruct rest as [|c' rest']; [discriminate|].
    destruct Hf as [(r & Hg & Hn) Hf].
    simpl. rewrite Hg, Hn. apply (IH c'); [reflexivity|exact Hf|exact Hi].
Qed.

(** The loop never assigns [iterator]; [next_iterator] ends up holding the
    cursor of the last fetch of the loop. *)
Lemma while_loop_holds : forall v v',
  final (while_loop get_records v) = Some v' ->
  iterator v' = iterator v /\
  next_iterator v'
  = match last (fetched (trace (while_loop get_records v))) with
    | Some c => Some c
    | None => next_iterator v
    end.
Proof.
  induction v as [v IH] using while_ind. intros v'.
  rewrite while_loop_eq.
  destruct (loop v) eqn:Hl.
  2:{ unfold final. simpl. intros E. inversion E. split; reflexivity. }
  rewrite body_eq.
  destruct (NextShardIterator (get_records_res v)) as [nxt|] eqn:Hn.
  - destruct (get_records nxt) as [res|e] eqn:Hg.
    + destruct (count v + 1 >? 150) eqn:Hc.
      * unfold bind. rewrite while_loop_stopped by reflexivity.
        unfold ret, trace, final. simpl. intros E. inversion E.
        rewrite !fetched_app, fetched_header. split; reflexivity.
      * specialize (IH (header v ++ [EvGetRecords nxt]) (advanced nxt res v)
                      eq_refl).
        rewrite body_eq, Hn, Hg, Hc in IH. specialize (IH eq_refl v').
        unfold bind.
        destruct (while_loop get_records (advanced nxt res v)) as [l' r'].
        unfold trace, final in *. simpl in *. intros E.
        destruct (IH E) as [Hi Hx]. split; [exact Hi|].
        rewrite !fetched_app, fetched_header. simpl.
        rewrite Hx, last_cons. destruct (last (fetched l')); reflexivity.
    + unfold bind, final. simpl. discriminate.
  - unfold bind. rewrite while_loop_stopped by reflexivity.
    unfold ret, trace, final. simpl. intros E. inversion E.
    rewrite !fetched_app, fetched_header. split; reflexivity.
Qed.

Lemma walk_shard_follows arn shard v it0 :
  get_shard_iterator arn shard "TRIM_HORIZON" = Ok it0 ->
  head (fetched (trace (walk_shard get_shard_iterator get_records
                          arn shard v))) = Some it0
  /\ follows get_records
       (fetched (trace (walk_shard get_shard_iterator get_records
                          arn shard v))).
Proof.
  intros Hit. rewrite walk_shard_eq, Hit.
  destruct (get_records it0) as [r0|e] eqn:H0; [|split; [reflexivity|exact I]].
  pose proof (while_loop_follows (entry shard it0 r0 v)) as [Hhd Hfol].
  destruct (while_loop get_records (entry shard it0 r0 v)) as [l res].
  unfold trace in *. simpl fst in *.
  change (fetched (EvGetShardIterator arn shard "TRIM_HORIZON"
                     :: EvGetRecords it0 :: EvPrint (Checking shard) :: l))
    with (it0 :: fetched l).
  split; [reflexivity|].
  destruct (fetched l) as [|c' cs']; [exact I|].
  split; [|exact Hfol]. exists r0. split; [exact H0|exact Hhd].
Qed.

Lemma walk_shard_holds arn shard v it0 v' :
  get_shard_iterator arn shard "TRIM_HORIZON" = Ok it0 ->
  final (walk_shard get_shard_iterator get_records arn shard v) = Some v' ->
  iterator v' = it0 /\
  forall c cs,
    tail (fetched (trace (walk_shard get_shard_iterator get_records
                            arn shard v))) = c :: cs ->
    next_iterator v' = last (c :: cs).
Proof.
  intros Hit. rewrite walk_shard_eq, Hit.
  destruct (get_records it0) as [r0|e] eqn:H0; [|discriminate].
  pose proof (while_loop_holds (entry shard it0 r0 v) v') as Hw.
  destruct (while_loop get_records (entry shard it0 r0 v)) as [l res].
  unfold trace, final in *. simpl in *. intros E.
  destruct (Hw E) as [Hi Hx]. split; [exact Hi|].
  intros c cs Hcs. rewrite Hx, Hcs.
  destruct (last (c :: cs)) eqn:Hlast; [reflexivity|].
  rewrite last_cons in Hlast. destruct (last cs); discriminate.
Qed.

(** C5: the cursors that the walk of a shard hands to [get_records] are, in
    order, the iterator obtained for the shard and then, for each further
    fetch, the next cursor that the fetch just before it returned; so
    fetch number i uses the cursor i steps along the shard, and where the
    service never hands out a cursor twice along the shard, no cursor is
    used for two fetches.  When the walk ends, [iterator] is the iterator
    obtained for the shard and, after a second fetch, [next_iterator] is
    the cursor of the last fetch. *)
Theorem iterators_single_use arn shard v it0 :
  get_shard_iterator arn shard "TRIM_HORIZON" = Ok it0 ->
  head (fetched (trace (walk_shard get_shard_iterator get_records
                          arn shard v))) = Some it0
  /\ follows get_records
       (fetched (trace (walk_shard get_shard_iterator get_records
                          arn shard v)))
  /\ (forall i c,
        fetched (trace (walk_shard get_shard_iterator get_records
                          arn shard v)) !! i = Some c ->
        cursor_at get_records i it0 = Some c)
  /\ (fresh_cursors get_records it0 ->
      NoDup (fetched (trace (walk_shard get_shard_iterator get_records
                               arn shard v))))
  /\ (forall v',
        final (walk_shard get_shard_iterator get_records arn shard v)
        = Some v' ->
        iterator v' = it0 /\
        forall c cs,
          tail (fetched (trace (walk_shard get_shard_iterator get_records
                                  arn shard v))) = c :: cs ->
          next_iterator v' = last (c :: cs)).
Proof.
  intros Hit.
  destruct (walk_shard_follows arn shard v it0 Hit) as [Hh Hf].
  split; [exact Hh|]. split; [exact Hf|].
  assert (Hpos := follows_cursor_at _ it0 Hh Hf).
  split; [exact Hpos|]. split.
  - intros Hfresh. apply NoDup_alt. intros i j c Hi Hj.
    apply (Hfresh i j c); [exact (Hpos i c Hi)|exact (Hpos j c Hj)].
  - intros v'. apply walk_shard_holds. exact Hit.
Qed.

(** *** Closed shards *)

Lemma marked_closed_app l1 l2 :
  marked_closed (l1 ++ l2) = marked_closed l1 || marked_closed l2.
Proof. apply existsb_app. Qed.

Lemma marked_closed_record_lines rs : marked_closed (record_lines rs) = false.
Proof. induction rs as [|r rs IH]; [reflexivity|exact IH]. Qed.

Lemma marked_closed_header v : marked_closed (header v) = false.
Proof.
  unfold header. rewrite marked_closed_app, marked_closed_record_lines.
  destruct (0 <? _); reflexivity.
Qed.

Lemma cursor_at_later k : forall it0 it r,
  cursor_at get_records k it0 = Some it -> get_records it = Ok r ->
  exists r0, get_records it0 = Ok r0 /\ later get_records k r0 = Some r.
Proof.
  induction k as [|k IH]; intros it0 it r Hc Hg; simpl in Hc.
  - inversion Hc; subst. exists r. split; [exact Hg|reflexivity].
  - destruct (get_records it0) as [r0|e] eqn:H0; [|discriminate].
    destruct (NextShardIterator r0) as [nxt|] eqn:Hn; [|discriminate].
    destruct (IH nxt it r Hc Hg) as (r1 & H1 & Hl).
    exists r0. split; [reflexivity|]. simpl. rewrite Hn, H1. exact Hl.
Qed.

(** The loop on a shard whose answer [k] fetches ahead is the last one. *)
Lemma while_loop_closes k : forall v r,
  loop v = true ->
  count v + Z.of_nat k <= 150 ->
  later get_records k (get_records_res v) = Some r ->
  NextShardIterator r = None ->
  exists pre v',
    while_loop get_records v
    = (pre ++ record_lines (Records r)
           ++ [EvPrint (ShardClosed (count v + Z.of_nat k))], Ok v') /\
    loop v' = false /\ length (fetched pre) = k /\ marked_closed pre = false.
Proof.
  induction k as [|k IH]; intros v r Hl Hc Hlat Hn.
  - simpl in Hlat. inversion Hlat; subst r. clear Hlat.
    rewrite while_loop_eq, Hl, body_eq, Hn. unfold bind.
    rewrite while_loop_stopped by reflexivity. unfold ret. cbv beta iota.
    exists (if 0 <? Z.of_nat (length (Records (get_records_res v)))
            then [EvPrint (FoundRecords (count v))] else []),
      (set_loop false (set_records (Records (get_records_res v)) v)).
    split; [|split; [reflexivity|]].
    + unfold header. rewrite app_nil_r, <- app_assoc, Z.add_0_r. reflexivity.
    + destruct (0 <? _); split; reflexivity.
  - simpl in Hlat.
    destruct (NextShardIterator (get_records_res v)) as [nxt|] eqn:Hnx;
      [|discriminate].
    destruct (get_records nxt) as [res|e] eqn:Hg; [|discriminate].
    destruct (IH (advanced nxt res v) r) as (pre & v' & Hw & Hl' & Hf & Hm);
      [exact Hl|simpl; lia|exact Hlat|exact Hn|].
    rewrite while_loop_eq, Hl, body_eq, Hnx, Hg.
    replace (count v + 1 >? 150) with false by lia.
    unfold bind. rewrite Hw.
    exists (header v ++ [EvGetRecords nxt] ++ pre), v'.
    split; [|split; [exact Hl'|split]].
    + simpl count. rewrite <- !app_assoc.
      replace (count v + 1 + Z.of_nat k)
        with (count v + Z.of_nat (Datatypes.S k)) by lia.
      reflexivity.
    + rewrite !fetched_app, fetched_header. simpl. rewrite Hf. reflexivity.
    + rewrite !marked_closed_app, marked_closed_header, Hm. reflexivity.
Qed.

Lemma walk_shard_closes arn shard v it0 k it r :
  get_shard_iterator arn shard "TRIM_HORIZON" = Ok it0 ->
  cursor_at get_records k it0 = Some it ->
  get_records it = Ok r ->
  NextShardIterator r = None ->
  (k <= 150)%nat ->
  exists pre v',
    walk_shard get_shard_iterator get_records arn shard v
    = (pre ++ record_lines (Records r)
           ++ [EvPrint (ShardClosed (Z.of_nat k))], Ok v') /\
    loop v' = false /\
    length (fetched pre) = Datatypes.S k /\
    last (fetched pre) = Some it /\
    marked_closed pre = false.
Proof.
  intros Hit Hc Hg Hn Hk.
  destruct (cursor_at_later k it0 it r Hc Hg) as (r0 & H0 & Hlat).
  destruct (while_loop_closes k (entry shard it0 r0 v) r)
    as (pre & v' & Hw & Hl & Hf & Hm);
    [reflexivity|simpl; lia|exact Hlat|exact Hn|].
  destruct (walk_shard_follows arn shard v it0 Hit) as [Hh Hfol].
  assert (Hpos := follows_cursor_at _ it0 Hh Hfol).
  rewrite walk_shard_eq, Hit, H0, Hw in *. simpl count in *.
  exists (EvGetShardIterator arn shard "TRIM_HORIZON" :: EvGetRecords it0
            :: EvPrint (Checking shard) :: pre), v'.
  unfold trace in Hpos. simpl fst in Hpos.
  change (fetched (EvGetShardIterator arn shard "TRIM_HORIZON"
                     :: EvGetRecords it0 :: EvPrint (Checking shard)
                     :: pre ++ record_lines (Records r)
                          ++ [EvPrint (ShardClosed (0 + Z.of_nat k))]))
    with (it0 :: fetched (pre ++ record_lines (Records r)
                              ++ [EvPrint (ShardClosed (0 + Z.of_nat k))]))
    in Hpos.
  rewrite !fetched_app, fetched_record_lines in Hpos. simpl in Hpos.
  rewrite app_nil_r in Hpos.
  split; [reflexivity|]. split; [exact Hl|]. split; [|split].
  - simpl. rewrite Hf. reflexivity.
  - change (fetched (EvGetShardIterator arn shard "TRIM_HORIZON"
                       :: EvGetRecords it0 :: EvPrint (Checking shard) :: pre))
      with (it0 :: fetched pre).
    rewrite last_lookup. simpl length. rewrite Hf. simpl pred.
    destruct ((it0 :: fetched pre) !! k) as [c|] eqn:E.
    + rewrite (Hpos k c E) in Hc. congruence.
    + apply lookup_ge_None in E. simpl in E. lia.
  - simpl. exact Hm.
Qed.

(** C4 (amended): once the answer to one of the first 151 fetches of a
    shard (fetch number k <= 150, counted from 0) holds no next cursor, the
    walker reports the shard as closed; that report, the only one, is the
    last event of the shard's walk, which has made k+1 fetches, the last of
    them the one with that answer, and [loop] is cleared. *)
Theorem closed_shard_is_left arn shard v it0 k it r :
  get_shard_iterator arn shard "TRIM_HORIZON" = Ok it0 ->
  cursor_at get_records k it0 = Some it ->
  get_records it = Ok r ->
  NextShardIterator r = None ->
  (k <= 150)%nat ->
  exists pre v',
    walk_shard get_shard_iterator get_records arn shard v
    = (pre ++ [EvPrint (ShardClosed (Z.of_nat k))], Ok v') /\
    loop v' = false /\
    length (fetched pre) = Datatypes.S k /\
    last (fetched pre) = Some it /\
    marked_closed pre = false.
Proof.
  intros Hit Hc Hg Hn Hk.
  destruct (walk_shard_closes arn shard v it0 k it r Hit Hc Hg Hn Hk)
    as (pre & v' & Hw & Hl & Hf & Hlast & Hm).
  exists (pre ++ record_lines (Records r)), v'.
  split; [rewrite Hw, <- app_assoc; reflexivity|]. split; [exact Hl|].
  rewrite fetched_app, fetched_record_lines, app_nil_r.
  split; [exact Hf|]. split; [exact Hlast|].
  rewrite marked_closed_app, Hm. apply marked_closed_record_lines.
Qed.

(** Whenever the loop reports the shard as closed, the report ends the log
    and comes right after the records of the answer to the last fetch. *)
Lemma while_loop_marked : forall v,
  marked_closed (trace (while_loop get_records v)) = true ->
  exists pre r c,
    trace (while_loop get_records v)
    = pre ++ record_lines (Records r) ++ [EvPrint (ShardClosed c)] /\
    NextShardIterator r = None /\
    ((fetched (trace (while_loop get_records v)) = [] /\ r = get_records_res v)
     \/ exists it,
          last (fetched (trace (while_loop get_records v))) = Some it /\
          get_records it = Ok r).
Proof.
  induction v as [v IH] using while_ind.
  rewrite while_loop_eq.
  destruct (loop v) eqn:Hl; [|discriminate].
  rewrite body_eq.
  destruct (NextShardIterator (get_records_res v)) as [nxt|] eqn:Hn.
  - destruct (get_records nxt) as [res|e] eqn:Hg.
    + destruct (count v + 1 >? 150) eqn:Hc.
      * unfold bind. rewrite while_loop_stopped by reflexivity.
        unfold ret, trace. simpl fst.
        rewrite !marked_closed_app, marked_closed_header. discriminate.
      * specialize (IH (header v ++ [EvGetRecords nxt]) (advanced nxt res v)
                      eq_refl).
        rewrite body_eq, Hn, Hg, Hc in IH. specialize (IH eq_refl).
        unfold bind.
        destruct (while_loop get_records (advanced nxt res v)) as [l' r']
          eqn:Hw.
        unfold trace in *. simpl fst in *.
        rewrite !marked_closed_app, marked_closed_header. simpl.
        intros Hm. destruct (IH Hm) as (pre & r & c & E & Hnone & Hlast).
        exists ((header v ++ [EvGetRecords nxt]) ++ pre), r, c.
        split; [rewrite E, <- !app_assoc; reflexivity|].
        split; [exact Hnone|]. right.
        rewrite !fetched_app, fetched_header. simpl.
        destruct Hlast as [[Hnil Hr]|(it & Hlast & Hit)].
        -- rewrite Hnil. exists nxt. split; [reflexivity|].
           rewrite Hg, Hr. reflexivity.
        -- exists it. split; [|exact Hit].
           destruct (fetched l') as [|c0 cs]; [discriminate|exact Hlast].
    + unfold bind, trace. simpl fst.
      rewrite !marked_closed_app, marked_closed_header. discriminate.
  - unfold bind. rewrite while_loop_stopped by reflexivity.
    unfold ret, trace. simpl fst. intros _.
    exists (if 0 <? Z.of_nat (length (Records (get_records_res v)))
            then [EvPrint (FoundRecords (count v))] else []),
      (get_records_res v), (count v).
    split; [|split; [exact Hn|left]].
    + unfold header. rewrite app_nil_r, <- app_assoc. reflexivity.
    + split; [|reflexivity].
      rewrite !fetched_app, fetched_header. reflexivity.
Qed.

Lemma walk_shard_marked arn shard v :
  marked_closed
    (trace (walk_shard get_shard_iterator get_records arn shard v)) = true ->
  exists pre it r c,
    trace (walk_shard get_shard_iterator get_records arn shard v)
    = pre ++ record_lines (Records r) ++ [EvPrint (ShardClosed c)] /\
    last (fetched
            (trace (walk_shard get_shard_iterator get_records arn shard v)))
    = Some it /\
    get_records it = Ok r /\
    NextShardIterator r = None.
Proof.
  rewrite walk_shard_eq.
  destruct (get_shard_iterator arn shard "TRIM_HORIZON") as [it0|e];
    [|discriminate].
  destruct (get_records it0) as [r0|e] eqn:H0; [|discriminate].
  pose proof (while_loop_marked (entry shard it0 r0 v)) as Hw.
  destruct (while_loop get_records (entry shard it0 r0 v)) as [l res].
  unfold trace in *. simpl fst in *. intros Hm.
  destruct (Hw Hm) as (pre & r & c & E & Hnone & Hlast).
  destruct Hlast as [[Hnil Hr]|(it & Hlast & Hit)].
  - exists (EvGetShardIterator arn shard "TRIM_HORIZON" :: EvGetRecords it0
              :: EvPrint (Checking shard) :: pre), it0, r, c.
    split; [rewrite E; reflexivity|].
    split; [simpl; rewrite Hnil; reflexivity|].
    split; [rewrite H0, Hr; reflexivity|exact Hnone].
  - exists (EvGetShardIterator arn shard "TRIM_HORIZON" :: EvGetRecords it0
              :: EvPrint (Checking shard) :: pre), it, r, c.
    split; [rewrite E; reflexivity|].
    split; [|split; [exact Hit|exact Hnone]].
    simpl. destruct (fetched l) as [|c0 cs]; [discriminate|exact Hlast].
Qed.

(** C9 (amended): when the answer to one of the first 151 fetches of a
    shard (fetch number k <= 150) holds no next cursor, the walk of the
    shard ends with the printed lines of all the records of that answer, in
    order, followed by the report that the shard is closed; and whenever a
    walk reports the shard as closed, the report is its last event and
    comes right after the records of the answer to the last fetch, the one
    without a next cursor.  The records are printed before the check for
    the next cursor, so closing a shard never loses its last batch. *)
Theorem last_batch_printed_before_close arn shard v :
  (forall it0 k it r,
     get_shard_iterator arn shard "TRIM_HORIZON" = Ok it0 ->
     cursor_at get_records k it0 = Some it ->
     get_records it = Ok r ->
     NextShardIterator r = None ->
     (k <= 150)%nat ->
     exists pre,
       trace (walk_shard get_shard_iterator get_records arn shard v)
       = pre ++ record_lines (Records r)
             ++ [EvPrint (ShardClosed (Z.of_nat k))] /\
       marked_closed pre = false)
  /\ (marked_closed
        (trace (walk_shard get_shard_iterator get_records arn shard v))
      = true ->
      exists pre it r c,
        trace (walk_shard get_shard_iterator get_records arn shard v)
        = pre ++ record_lines (Records r) ++ [EvPrint (ShardClosed c)] /\
        last (fetched
                (trace (walk_shard get_shard_iterator get_records
                          arn shard v))) = Some it /\
        get_records it = Ok r /\
        NextShardIterator r = None).
Proof.
  split.
  - intros it0 k it r Hit Hc Hg Hn Hk.
    destruct (walk_shard_closes arn shard v it0 k it r Hit Hc Hg Hn Hk)
      as (pre & v' & Hw & _ & _ & _ & Hm).
    exists pre. rewrite Hw. split; [reflexivity|exact Hm].
  - apply walk_shard_marked.
Qed.

(** *** One shard after another *)

Lemma bind_ret_r {A} (m : M A) : bind m ret = m.
Proof.
  destruct m as [l [a|e]]; simpl; [rewrite app_nil_r|]; reflexivity.
Qed.

Lemma body_agree v1 v2 :
  agree v1 v2 ->
  trace (body get_records v1) = trace (body get_records v2) /\
  agree_result (outcome (body get_records v1)) (outcome (body get_records v2)).
Proof.
  intros (E1 & E2 & E3). rewrite !body_eq. unfold header, advanced.
  rewrite <- E1, <- E3.
  destruct (NextShardIterator (get_records_res v1)) as [nxt|].
  - destruct (get_records nxt) as [res|e]; [|split; reflexivity].
    destruct (count v1 + 1 >? 150); split; try reflexivity;
      simpl; repeat split; simpl; auto.
  - split; [reflexivity|]. simpl. repeat split; simpl; auto.
Qed.

Lemma while_loop_agree : forall v1 v2,
  agree v1 v2 ->
  trace (while_loop get_records v1) = trace (while_loop get_records v2) /\
  agree_result (outcome (while_loop get_records v1))
               (outcome (while_loop get_records v2)).
Proof.
  induction v1 as [v1 IH] using while_ind. intros v2 Ha.
  rewrite (while_loop_eq v1), (while_loop_eq v2).
  destruct Ha as (E1 & E2 & E3). rewrite <- E2.
  destruct (loop v1) eqn:Hl.
  - destruct (body_agree v1 v2) as [Ht Ho]; [repeat split; congruence|].
    destruct (body get_records v1) as [l1 [a|e1]] eqn:Hb1;
      destruct (body get_records v2) as [l2 [b|e2]] eqn:Hb2;
      unfold trace, outcome in Ht, Ho; simpl in Ht, Ho; subst;
      try contradiction; [|split; reflexivity].
    destruct (IH l2 a eq_refl eq_refl b Ho) as [Ht' Ho'].
    unfold bind.
    destruct (while_loop get_records a) as [la ra];
      destruct (while_loop get_records b) as [lb rb].
    unfold trace, outcome in *. simpl in *. subst. split; [reflexivity|exact Ho'].
  - split; [reflexivity|]. simpl. repeat split; congruence.
Qed.

(** What the walk of one shard does is the same whatever the variables
    held before. *)
Lemma walk_shard_agree arn shard v1 v2 :
  trace (walk_shard get_shard_iterator get_records arn shard v1)
  = trace (walk_shard get_shard_iterator get_records arn shard v2)
  /\ agree_result
       (outcome (walk_shard get_shard_iterator get_records arn shard v1))
       (outcome (walk_shard get_shard_iterator get_records arn shard v2)).
Proof.
  rewrite !walk_shard_eq.
  destruct (get_shard_iterator arn shard "TRIM_HORIZON") as [it|e];
    [|split; reflexivity].
  destruct (get_records it) as [res|e]; [|split; reflexivity].
  destruct (while_loop_agree (entry shard it res v1) (entry shard it res v2))
    as [Ht Ho]; [repeat split|].
  destruct (while_loop get_records (entry shard it res v1)) as [l1 r1];
    destruct (while_loop get_records (entry shard it res v2)) as [l2 r2].
  unfold trace, outcome in *. simpl in *. subst. split; [reflexivity|exact Ho].
Qed.

Lemma for_shards_app arn before after : forall v,
  for_shards get_shard_iterator get_records arn (before ++ after) v
  = bind (for_shards get_shard_iterator get_records arn before v)
         (for_shards get_shard_iterator get_records arn after).
Proof.
  induction before as [|s rest IH]; intros v.
  - simpl app. change (for_shards get_shard_iterator get_records arn [] v)
      with (ret v). rewrite bind_ret_l. reflexivity.
  - simpl. rewrite bind_assoc. apply bind_ext. intros v'. apply IH.
Qed.

Lemma for_shards_one arn shard v :
  for_shards get_shard_iterator get_records arn [shard] v
  = walk_shard get_shard_iterator get_records arn shard v.
Proof. simpl. apply bind_ret_r. Qed.

(** C10: when the walks of the shards listed before a shard have ended
    without an exception, the events of the walk of that shard, whether it
    raises, and the value [count] ends at are those of walking the shard
    on its own from any state of the variables: the walk starts by asking
    for a TRIM_HORIZON iterator of the shard and enters the loop with
    [count] set to 0. *)
Theorem shard_walks_independent arn before shard v l1 v1 v0 :
  for_shards get_shard_iterator get_records arn before v = (l1, Ok v1) ->
  trace (for_shards get_shard_iterator get_records arn (before ++ [shard]) v)
  = l1 ++ trace (walk_shard get_shard_iterator get_records arn shard v0)
  /\ raised (for_shards get_shard_iterator get_records arn
               (before ++ [shard]) v)
     = raised (walk_shard get_shard_iterator get_records arn shard v0)
  /\ option_map count
       (final (for_shards get_shard_iterator get_records arn
                 (before ++ [shard]) v))
     = option_map count
         (final (walk_shard get_shard_iterator get_records arn shard v0))
  /\ head (trace (walk_shard get_shard_iterator get_records arn shard v0))
     = Some (EvGetShardIterator arn shard "TRIM_HORIZON")
  /\ forall it res,
       get_shard_iterator arn shard "TRIM_HORIZON" = Ok it ->
       get_records it = Ok res ->
       count (entry shard it res v1) = 0 /\
       loop (entry shard it res v1) = true /\
       walk_shard get_shard_iterator get_records arn shard v1
       = (EvGetShardIterator arn shard "TRIM_HORIZON" :: EvGetRecords it
            :: EvPrint (Checking shard)
            :: trace (while_loop get_records (entry shard it res v1)),
          outcome (while_loop get_records (entry shard it res v1))).
Proof.
  intros Hb.
  rewrite for_shards_app, Hb. unfold bind. rewrite for_shards_one.
  destruct (walk_shard_agree arn shard v1 v0) as [Ht Ho].
  destruct (walk_shard get_shard_iterator get_records arn shard v1)
    as [la ra] eqn:E1.
  destruct (walk_shard get_shard_iterator get_records arn shard v0)
    as [lb rb] eqn:E0.
  unfold trace, outcome, raised, final in *. simpl in *. subst lb.
  split; [reflexivity|]. split.
  { destruct ra, rb; simpl in Ho; try contradiction;
      [reflexivity|congruence]. }
  split.
  { destruct ra, rb; simpl in Ho; try contradiction; [|reflexivity].
    destruct Ho as (_ & _ & Hc). simpl. congruence. }
  split.
  { rewrite walk_shard_eq in E0.
    destruct (get_shard_iterator arn shard "TRIM_HORIZON") as [it|e];
      [|inversion E0; reflexivity].
    destruct (get_records it) as [res|e]; [|inversion E0; reflexivity].
    destruct (while_loop get_records (entry shard it res v0)).
    inversion E0. reflexivity. }
  intros it res Hit Hg. split; [reflexivity|]. split; [reflexivity|].
  rewrite <- E1, walk_shard_eq, Hit, Hg.
  destruct (while_loop get_records (entry shard it res v1)). reflexivity.
Qed.

(** *** Failing fetches *)

Lemma cursor_at_next k : forall r0 nxt it,
  NextShardIterator r0 = Some nxt ->
  cursor_at get_records k nxt = Some it ->
  exists r, later get_records k r0 = Some r /\ NextShardIterator r = Some it.
Proof.
  induction k as [|k IH]; intros r0 nxt it Hn Hc; simpl in Hc.
  - inversion Hc; subst. exists r0. split; [reflexivity|exact Hn].
  - destruct (get_records nxt) as [r1|e] eqn:Hg; [|discriminate].
    destruct (NextShardIterator r1) as [n2|] eqn:Hn1; [|discriminate].
    destruct (IH r1 n2 it Hn1 Hc) as (r & Hl & Hr).
    exists r. split; [|exact Hr]. simpl. rewrite Hn, Hg. exact Hl.
Qed.

Lemma while_loop_fetch_fails k : forall v r it e,
  loop v = true ->
  count v + Z.of_nat k <= 150 ->
  later get_records k (get_records_res v) = Some r ->
  NextShardIterator r = Some it ->
  get_records it = Raise e ->
  exists pre,
    while_loop get_records v = (pre ++ [EvGetRecords it], Raise e) /\
    length (fetched pre) = k.
Proof.
  induction k as [|k IH]; intros v r it e Hl Hc Hlat Hn He.
  - simpl in Hlat. inversion Hlat; subst r. clear Hlat.
    rewrite while_loop_eq, Hl, body_eq, Hn, He. unfold bind.
    exists (header v). split; [reflexivity|].
    rewrite fetched_header. reflexivity.
  - simpl in Hlat.
    destruct (NextShardIterator (get_records_res v)) as [nxt|] eqn:Hnx;
      [|discriminate].
    destruct (get_records nxt) as [res|e'] eqn:Hg; [|discriminate].
    destruct (IH (advanced nxt res v) r it e) as (pre & Hw & Hf);
      [exact Hl|simpl; lia|exact Hlat|exact Hn|exact He|].
    rewrite while_loop_eq, Hl, body_eq, Hnx, Hg.
    replace (count v + 1 >? 150) with false by lia.
    unfold bind. rewrite Hw.
    exists (header v ++ [EvGetRecords nxt] ++ pre). split.
    + rewrite <- !app_assoc. reflexivity.
    + rewrite !fetched_app, fetched_header. simpl. rewrite Hf. reflexivity.
Qed.

(** A failing fetch ends the walk: the exception leaves the loop, the
    failing call is the last event of the cell, and the cursor it was made
    with is not tried again; later shards are not visited. *)
Lemma fetch_failure_surfaces arn before shard after v l1 v1 it0 k it e :
  for_shards get_shard_iterator get_records arn before v = (l1, Ok v1) ->
  get_shard_iterator arn shard "TRIM_HORIZON" = Ok it0 ->
  cursor_at get_records k it0 = Some it ->
  get_records it = Raise e ->
  (k <= 151)%nat ->
  exists pre,
    for_shards get_shard_iterator get_records arn
      (before ++ shard :: after) v
    = (l1 ++ pre ++ [EvGetRecords it], Raise e) /\
    length (fetched pre) = k.
Proof.
  intros Hb Hit Hc He Hk.
  assert (Hw : exists pre,
             walk_shard get_shard_iterator get_records arn shard v1
             = (pre ++ [EvGetRecords it], Raise e) /\
             length (fetched pre) = k).
  { rewrite walk_shard_eq, Hit. destruct k as [|k]; simpl in Hc.
    - inversion Hc; subst it. rewrite He.
      exists [EvGetShardIterator arn shard "TRIM_HORIZON"].
      split; reflexivity.
    - destruct (get_records it0) as [r0|e0] eqn:H0; [|discriminate].
      destruct (NextShardIterator r0) as [nxt|] eqn:Hn; [|discriminate].
      destruct (cursor_at_next k r0 nxt it Hn Hc) as (r & Hlat & Hr).
      destruct (while_loop_fetch_fails k (entry shard it0 r0 v1) r it e)
        as (pre & Hw & Hf);
        [reflexivity|simpl; lia|exact Hlat|exact Hr|exact He|].
      rewrite Hw.
      exists (EvGetShardIterator arn shard "TRIM_HORIZON" :: EvGetRecords it0
                :: EvPrint (Checking shard) :: pre).
      split; [reflexivity|]. simpl. rewrite Hf. reflexivity. }
  destruct Hw as (pre & Hw & Hf). exists pre. split; [|exact Hf].
  rewrite for_shards_app, Hb. unfold bind. simpl for_shards.
  rewrite Hw. reflexivity.
Qed.

End Proofs.

(** *** The example services *)

Lemma tally_serves last batch m :
  forall it n,
    String.length it = n -> (n + m = last)%nat ->
    exists r, tally_service (Some last) batch it = Ok r /\
              serves (tally_service (Some last) batch) r
                (map batch (seq n (S m))).
Proof.
  induction m as [|m IH]; intros it n Hn Hm.
  - eexists. split; [reflexivity|]. simpl. rewrite Hn. split; [reflexivity|].
    replace (last <=? n)%nat with true; [reflexivity|].
    symmetry. apply Nat.leb_le. lia.
  - destruct (IH (String "i" it) (Datatypes.S n)) as (r' & Hr' & Hs').
    + simpl. congruence.
    + lia.
    + eexists. split; [reflexivity|].
      change (map batch (seq n (Datatypes.S (Datatypes.S m))))
        with (batch n :: map batch (seq (Datatypes.S n) (Datatypes.S m))).
      change (map batch (seq (Datatypes.S n) (Datatypes.S m)))
        with (batch (Datatypes.S n)
                :: map batch (seq (Datatypes.S (Datatypes.S n)) m)) in *.
      split; [simpl; rewrite Hn; reflexivity|].
      exists (String "i" it), r'. split; [|split; [exact Hr'|exact Hs']].
      simpl. rewrite Hn.
      replace (last <=? n)%nat with false; [reflexivity|].
      symmetry. apply Nat.leb_gt. lia.
Qed.

Lemma demo_serves : shard_serves demo_get_records "" demo_batches.
Proof.
  destruct (tally_serves 2 (fun n => nth n demo_batches []) 2 "" 0%nat)
    as (r & Hr & Hs); [reflexivity|reflexivity|].
  exists r. split; [exact Hr|exact Hs].
Qed.

Lemma late_serves : shard_serves late_get_records "" late_batches.
Proof.
  destruct (tally_serves 151 (fun n => nth n late_batches []) 151 "" 0%nat)
    as (r & Hr & Hs); [reflexivity|reflexivity|].
  exists r. split; [exact Hr|].
  assert (E : map (fun n => nth n late_batches []) (seq 0 152) = late_batches)
    by (vm_compute; reflexivity).
  rewrite E in Hs. exact Hs.
Qed.

Lemma walker_emits_all_records_witness :
  emitted (trace (walk_shard one_iterator demo_get_records "arn" "shard-0" blank))
    = concat demo_batches
  /\ raised (walk_shard one_iterator demo_get_records "arn" "shard-0" blank)
     = None.
Proof.
  apply (walker_emits_all_records one_iterator demo_get_records
           "arn" "shard-0" blank "" demo_batches).
  - reflexivity.
  - exact demo_serves.
  - simpl. lia.
Defined.

(** C1 as stated fails on a shard of 152 batches: the walker has fetched
    the last batch, which holds a record, when it reaches its polling limit,
    and prints none of it. *)
Lemma walker_drops_batch_152 :
  shard_serves late_get_records "" late_batches
  /\ emitted (trace (walk_shard one_iterator late_get_records
                       "arn" "shard-0" blank)) <> concat late_batches.
Proof.
  split; [exact late_serves|]. vm_compute. discriminate.
Qed.

Lemma idle_never_closes : never_closes idle_get_records "".
Proof.
  exists (fun _ => True). split; [exact I|].
  intros it _. exists (String "i" it). split; [reflexivity|exact I].
Qed.

Lemma never_closing_shard_polls_151_witness :
  exists l v',
    walk_shard one_iterator idle_get_records "arn" "shard-0" blank
    = (EvGetShardIterator "arn" "shard-0" "TRIM_HORIZON" :: EvGetRecords ""
         :: EvPrint (Checking "shard-0") :: l, Ok v')
    /\ count v' = 151 /\ printed l = [StillActive].
Proof.
  destruct (never_closing_shard_polls_151 one_iterator idle_get_records
              "arn" "shard-0" blank "" eq_refl idle_never_closes)
    as (r0 & l & v' & _ & _ & _ & _ & Hc & _ & Hp & _ & Hw).
  exists l, v'. split; [exact Hw|]. split; [exact Hc|exact Hp].
Defined.

(** C2 as stated fails: on a shard that never closes, [loop] is still set
    after 150 passes. *)
Lemma idle_shard_still_polling_after_150 :
  never_closes idle_get_records ""
  /\ option_map loop
       (final (passes idle_get_records 150
                 (entry "shard-0" "" (mkResponse [] (Some "i")) blank)))
     = Some true.
Proof.
  split; [exact idle_never_closes|]. vm_compute. reflexivity.
Qed.

Lemma empty_batch_polls_on_witness :
  body idle_get_records (entry "shard-0" "" (mkResponse [] (Some "i")) blank)
  = ([EvGetRecords "i"],
     Ok (advanced "i" (mkResponse [] (Some "ii"))
           (entry "shard-0" "" (mkResponse [] (Some "i")) blank))).
Proof.
  apply (empty_batch_polls_on idle_get_records
           (entry "shard-0" "" (mkResponse [] (Some "i")) blank) "i");
    [reflexivity|reflexivity|simpl; lia].
Defined.

(** C3 as stated fails at the polling limit: the state after 150 passes
    over empty batches holds another empty batch with a next cursor and has
    [loop] set, and the pass over it clears [loop]. *)
Lemma empty_batch_at_limit_stops :
  exists v,
    final (passes idle_get_records 150
             (entry "shard-0" "" (mkResponse [] (Some "i")) blank)) = Some v
    /\ loop v = true
    /\ Records (get_records_res v) = []
    /\ NextShardIterator (get_records_res v) <> None
    /\ option_map loop (final (body idle_get_records v)) = Some false.
Proof.
  eexists. split; [vm_compute; reflexivity|].
  split; [reflexivity|]. split; [reflexivity|]. split; [discriminate|].
  vm_compute. reflexivity.
Qed.

Lemma closed_shard_is_left_witness :
  exists pre v',
    walk_shard one_iterator demo_get_records "arn" "shard-0" blank
    = (pre ++ [EvPrint (ShardClosed 2)], Ok v') /\
    loop v' = false /\
    length (fetched pre) = 3%nat /\
    last (fetched pre) = Some "ii" /\
    marked_closed pre = false.
Proof.
  apply (closed_shard_is_left one_iterator demo_get_records
           "arn" "shard-0" blank "" 2 "ii" (mkResponse [whale] None));
    [reflexivity|reflexivity|reflexivity|reflexivity|lia].
Defined.

(** C4 as stated fails at the polling limit: the answer to fetch number
    151 of this shard holds no next cursor, it is the last fetch of the
    walk, and the walk never reports the shard as closed; its last line
    says that the shard is still active. *)
Lemma closed_shard_reported_active :
  exists it r,
    cursor_at late_get_records 151 "" = Some it /\
    late_get_records it = Ok r /\
    NextShardIterator r = None /\
    last (fetched (trace (walk_shard one_iterator late_get_records
                            "arn" "shard-0" blank))) = Some it /\
    marked_closed (trace (walk_shard one_iterator late_get_records
                            "arn" "shard-0" blank)) = false /\
    last (printed (trace (walk_shard one_iterator late_get_records
                            "arn" "shard-0" blank))) = Some StillActive.
Proof.
  eexists _, _. split; [vm_compute; reflexivity|].
  split; [vm_compute; reflexivity|].
  repeat split; vm_compute; reflexivity.
Qed.

Lemma last_batch_printed_before_close_witness :
  (exists pre,
     trace (walk_shard one_iterator demo_get_records "arn" "shard-0" blank)
     = pre ++ record_lines [whale] ++ [EvPrint (ShardClosed 2)] /\
     marked_closed pre = false)
  /\ exists pre it r c,
       trace (walk_shard one_iterator demo_get_records "arn" "shard-0" blank)
       = pre ++ record_lines (Records r) ++ [EvPrint (ShardClosed c)] /\
       last (fetched
               (trace (walk_shard one_iterator demo_get_records
                         "arn" "shard-0" blank))) = Some it /\
       demo_get_records it = Ok r /\
       NextShardIterator r = None.
Proof.
  destruct (last_batch_printed_before_close one_iterator demo_get_records
              "arn" "shard-0" blank) as [HA HB].
  split.
  - apply (HA "" 2%nat "ii" (mkResponse [whale] None));
      [reflexivity|reflexivity|reflexivity|reflexivity|lia].
  - apply HB. reflexivity.
Defined.

(** C9 as stated fails at the polling limit: the answer to fetch number
    151 of this shard holds a record and no next cursor, and the walk
    prints no record at all. *)
Lemma last_batch_lost_at_limit :
  exists it,
    cursor_at late_get_records 151 "" = Some it /\
    late_get_records it = Ok (mkResponse [whale] None) /\
    emitted (trace (walk_shard one_iterator late_get_records
                      "arn" "shard-0" blank)) = [].
Proof.
  eexists. split; [vm_compute; reflexivity|].
  split; vm_compute; reflexivity.
Qed.

Lemma demo_fresh : fresh_cursors demo_get_records "".
Proof.
  intros i j c.
  destruct i as [|[|[|i]]]; destruct j as [|[|[|j]]]; simpl;
    intros Hi Hj; congruence.
Qed.

Lemma iterators_single_use_witness :
  head (fetched (trace (walk_shard one_iterator demo_get_records
                          "arn" "shard-0" blank))) = Some ""
  /\ follows demo_get_records
       (fetched (trace (walk_shard one_iterator demo_get_records
                          "arn" "shard-0" blank)))
  /\ NoDup (fetched (trace (walk_shard one_iterator demo_get_records
                              "arn" "shard-0" blank))).
Proof.
  destruct (iterators_single_use one_iterator demo_get_records
              "arn" "shard-0" blank "" eq_refl) as (Hh & Hf & _ & Hn & _).
  split; [exact Hh|]. split; [exact Hf|]. exact (Hn demo_fresh).
Defined.

Lemma shard_walks_independent_witness :
  trace (for_shards one_iterator demo_get_records "arn"
           (["shard-0"] ++ ["shard-1"]) blank)
  = trace (for_shards one_iterator demo_get_records "arn" ["shard-0"] blank)
    ++ trace (walk_shard one_iterator demo_get_records "arn" "shard-1" blank).
Proof.
  apply (shard_walks_independent one_iterator demo_get_records "arn"
           ["shard-0"] "shard-1" blank
           (trace (for_shards one_iterator demo_get_records "arn"
                     ["shard-0"] blank))
           (mkVars "shard-0" "" (mkResponse [whale] None) false 2 [whale]
              (Some "ii"))
           blank).
  vm_compute. reflexivity.
Defined.

(** The lines of the whole cell on a stream with one shard of three
    batches. *)
Example demo_cell_output :
  map render
    (printed (trace (walker_cell (Ok ["arn:demo"]) (fun _ => Ok ["shard-0"])
                       one_iterator demo_get_records blank)))
  = ["Checking shard-0";
     "    Found records on iteration number: 0";
     "    MODIFY - Herman Melville - Moby Dick";
     "    INSERT - Captain Ahab - Tales from the bottom of the Sea";
     "    Found records on iteration number: 2";
     "    INSERT - The Whale - Winning";
     "    Iteration: 2 - No next iterator found. Shard is closed.";
     "Done!"].
Proof. vm_compute. reflexivity. Qed.

(** A throttled fetch in the first of two shards: the exception ends the
    cell at the failing call, which is made once, and the second shard is
    never looked at. *)
Example throttled_fetch_ends_the_cell :
  for_shards one_iterator throttled_get_records "arn"
    ["shard-0"; "shard-1"] blank
  = ([EvGetShardIterator "arn" "shard-0" "TRIM_HORIZON"; EvGetRecords "";
      EvPrint (Checking "shard-0"); EvPrint (FoundRecords 0);
      EvPrint (RecordLine moby); EvPrint (RecordLine ahab);
      EvGetRecords "i"; EvGetRecords "ii"],
     Raise (ClientError "ProvisionedThroughputExceededException")).
Proof. vm_compute. reflexivity. Qed.

End WalkerProofs.

(** * The guarded cells: proofs *)

Module CellsProofs.
Import Cells.
Local Open Scope cell_scope.

Section AnyService.

Context {S : Type} `{TableService S}.

(** C7: when the service answers the create call for the table with the
    already-exists error, the cell catches it, prints that there is nothing
    to do and ends normally without another call to the service; and when
    the service answers the delete call with the not-found error, the
    delete cell does the same. *)
Theorem existing_and_missing_table_are_no_ops (s1 s1' s2 s2' : S) :
  create_table books s1
    = (Raise (ClientError "ResourceInUseException"), s1') ->
  delete_table books s2
    = (Raise (ClientError "ResourceNotFoundException"), s2') ->
  create_cell s1
    = (([PLine "Creating table...";
         PLine "Table already exists. Nothing to do."], Ok tt), s1')
  /\ delete_cell s2
     = (([PLine "Deleting table...";
          PLine "No table found. Nothing to do."], Ok tt), s2').
Proof.
  intros Hc Hd. split.
  - unfold create_cell, try_except_ClientError, bind, call, print.
    rewrite Hc. reflexivity.
  - unfold delete_cell, try_except_ClientError, bind, call, print.
    rewrite Hd. reflexivity.
Qed.

(** Any other [ClientError] of the create call is caught as well, and
    printed. *)
Lemma create_cell_prints_other_errors (s s' : S) code :
  create_table books s = (Raise (ClientError code), s') ->
  code <> "ResourceInUseException" ->
  create_cell s
  = (([PLine "Creating table..."; PError (ClientError code)], Ok tt), s').
Proof.
  intros Hc Hne.
  unfold create_cell, try_except_ClientError, bind, call, print.
  rewrite Hc. apply String.eqb_neq in Hne. rewrite Hne. reflexivity.
Qed.

(** An exception that is not a [ClientError] passes through the handler. *)
Lemma create_cell_passes_other_exceptions (s s' : S) what :
  create_table books s = (Raise (OtherError what), s') ->
  create_cell s = (([PLine "Creating table..."], Raise (OtherError what)), s').
Proof.
  intros Hc.
  unfold create_cell, try_except_ClientError, bind, call, print.
  rewrite Hc. reflexivity.
Qed.

(** The handler of the conditional put has no branch for other codes: a
    [ClientError] that is not the failed condition is dropped. *)
Lemma conditional_put_drops_other_errors (s s' : S) item cond code :
  put_item books item cond s = (Raise (ClientError code), s') ->
  code <> "ConditionalCheckFailedException" ->
  try_except_ClientError
    (call (put_item books item cond))
    (fun code =>
       if String.eqb code "ConditionalCheckFailedException"
       then print (PLine "The item already exists. PutItem Canceled. ")
       else ret tt) s
  = (([], Ok tt), s').
Proof.
  intros Hp Hne. unfold try_except_ClientError, call.
  rewrite Hp. apply String.eqb_neq in Hne. rewrite Hne. reflexivity.
Qed.

(** The handler of the delete cell has no such branch either. *)
Lemma delete_cell_drops_other_errors (s s' : S) code :
  delete_table books s = (Raise (ClientError code), s') ->
  code <> "ResourceNotFoundException" ->
  delete_cell s = (([PLine "Deleting table..."], Ok tt), s').
Proof.
  intros Hd Hne.
  unfold delete_cell, try_except_ClientError, bind, call, print.
  rewrite Hd. apply String.eqb_neq in Hne. rewrite Hne. reflexivity.
Qed.

End AnyService.

(** *** On the reference service *)

Lemma ref_create_existing (db : DB) (table : Table) :
  db !! books = Some table ->
  create_table books db = (Raise (ClientError "ResourceInUseException"), db).
Proof. intros E. simpl. unfold ref_create_table. rewrite E. reflexivity. Qed.

Lemma ref_delete_missing (db : DB) :
  db !! books = None ->
  delete_table books db
  = (Raise (ClientError "ResourceNotFoundException"), db).
Proof. intros E. simpl. unfold ref_delete_table. rewrite E. reflexivity. Qed.

Lemma existing_and_missing_table_are_no_ops_witness :
  create_cell one_book
    = (([PLine "Creating table...";
         PLine "Table already exists. Nothing to do."], Ok tt), one_book)
  /\ delete_cell (∅ : DB)
     = (([PLine "Deleting table...";
          PLine "No table found. Nothing to do."], Ok tt), ∅).
Proof.
  apply (existing_and_missing_table_are_no_ops one_book one_book ∅ ∅).
  - apply (ref_create_existing one_book {[ moby_key := moby_item ]}).
    reflexivity.
  - apply ref_delete_missing. reflexivity.
Defined.

(** C6: on the reference service, for an item whose Version is 2, the
    conditional update that expects Version 2 succeeds and leaves the item
    with Version 3 (and Rating 1); the same request sent again is refused
    with ConditionalCheckFailedException and changes nothing, the unguarded
    cell run again raises that exception, and the guarded cell prints that
    the condition failed instead of an updated item. *)
Theorem conditional_update_succeeds_once
    (db : DB) (table : Table) (item : Item) :
  db !! books = Some table ->
  table !! moby_key = Some item ->
  item !! "Version" = Some (AttrN 2) ->
  exists (item' : Item) (db' : DB),
    conditional_update_cell db = (([PItem item'], Ok tt), db') /\
    item' = <["Version" := AttrN 3]> (<["Rating" := AttrN 1]> item) /\
    item' !! "Version" = Some (AttrN 3) /\
    db' = <[books := <[moby_key := item']> table]> db /\
    conditional_update db'
    = (Raise (ClientError "ConditionalCheckFailedException"), db') /\
    conditional_update_cell db'
    = (([], Raise (ClientError "ConditionalCheckFailedException")), db') /\
    conditional_update_again_cell db'
    = (([PLine "Exception Condition Triggered as expected";
         PLine "Version attribute is not the expected value ... the item must have been updated"],
        Ok tt), db').
Proof.
  intros Hdb Htable Hver.
  set (item' := <["Version" := AttrN 3]> (<["Rating" := AttrN 1]> item)).
  set (db' := <[books := <[moby_key := item']> table]> db).
  assert (Hfirst : conditional_update db = (Ok item', db')).
  { unfold conditional_update. simpl. unfold ref_update_item.
    rewrite Hdb, Htable. simpl. rewrite bool_decide_eq_true_2 by exact Hver.
    reflexivity. }
  assert (Hver' : item' !! "Version" = Some (AttrN 3)).
  { unfold item'. apply lookup_insert_eq. }
  assert (Hsecond : conditional_update db'
            = (Raise (ClientError "ConditionalCheckFailedException"), db')).
  { unfold conditional_update. simpl. unfold ref_update_item.
    unfold db' at 1. rewrite lookup_insert_eq, lookup_insert_eq. simpl.
    rewrite bool_decide_eq_false_2; [reflexivity|].
    rewrite Hver'. discriminate. }
  exists item', db'.
  split.
  { unfold conditional_update_cell, bind, call, print. rewrite Hfirst.
    reflexivity. }
  split; [reflexivity|]. split; [exact Hver'|]. split; [reflexivity|].
  split; [exact Hsecond|]. split.
  { unfold conditional_update_cell, bind, call, print. rewrite Hsecond.
    reflexivity. }
  unfold conditional_update_again_cell, try_except_ClientError, bind, call,
    print.
  rewrite Hsecond. reflexivity.
Qed.

Lemma conditional_update_succeeds_once_witness :
  exists (item' : Item) (db' : DB),
    conditional_update_cell one_book = (([PItem item'], Ok tt), db') /\
    item' !! "Version" = Some (AttrN 3) /\
    conditional_update_again_cell db'
    = (([PLine "Exception Condition Triggered as expected";
         PLine "Version attribute is not the expected value ... the item must have been updated"],
        Ok tt), db').
Proof.
  destruct (conditional_update_succeeds_once one_book
              {[ moby_key := moby_item ]} moby_item)
    as (item' & db' & H1 & _ & H2 & _ & _ & _ & H3);
    [reflexivity|reflexivity|reflexivity|].
  exists item', db'. split; [exact H1|]. split; [exact H2|exact H3].
Defined.

(** C8, at the failing input: the put is throttled, the service answers
    with a [ClientError] whose code is not the failed condition, and the
    conditional-put cell ends normally, having printed nothing and raised
    nothing. *)
Theorem conditional_put_swallows_throttling (db : DB) :
  @put_item DB throttled_service books
     (<["Author" := AttrS "Jill"]>
        (<["Title" := AttrS "Ice Cream Part 2"]> ∅))
     (Some (AttributeNotExists "Title")) db
  = (Raise (ClientError "ProvisionedThroughputExceededException"), db)
  /\ @conditional_put_cell DB throttled_service db = (([], Ok tt), db).
Proof. split; reflexivity. Qed.

(** The cell that creates the table, throttled in the same way, prints the
    error. *)
Example create_cell_prints_throttling :
  @create_cell DB
    {| create_table := fun _ db =>
         (Raise (ClientError "ProvisionedThroughputExceededException"), db);
       wait_until_exists := ref_wait;
       put_item := ref_put_item;
       update_item := ref_update_item;
       delete_table := ref_delete_table;
       wait_until_not_exists := ref_wait |} ∅
  = (([PLine "Creating table...";
       PError (ClientError "ProvisionedThroughputExceededException")],
      Ok tt), ∅).
Proof. reflexivity. Qed.

End CellsProofs.

(** * The shard walker: bounds, reports and failures *)

Module WalkerMore.
Import Walker WalkerLog WalkerProofs.
Local Open Scope walker_scope.

Section Proofs.

Variable list_streams : result (list string).
Variable describe_stream : string -> result (list string).
Variable get_shard_iterator : string -> string -> string -> result string.
Variable get_records : string -> result Response.

(** *** The runs of the loop, case by case *)

(** Induction over a run of the loop: the loop is not entered, or its last
    pass finds no next cursor, or a fetch fails, or the polling limit is
    reached, or a pass is followed by the rest of the run. *)
Lemma while_loop_run_ind (P : Vars -> M Vars -> Prop) :
  (forall v, loop v = false -> P v (ret v)) ->
  (forall v,
     loop v = true -> NextShardIterator (get_records_res v) = None ->
     P v (header v ++ [EvPrint (ShardClosed (count v))],
          Ok (set_loop false (set_records (Records (get_records_res v)) v)))) ->
  (forall v nxt e,
     loop v = true -> NextShardIterator (get_records_res v) = Some nxt ->
     get_records nxt = Raise e ->
     P v (header v ++ [EvGetRecords nxt], Raise e)) ->
  (forall v nxt res,
     loop v = true -> NextShardIterator (get_records_res v) = Some nxt ->
     get_records nxt = Ok res -> 150 < count v + 1 ->
     P v (header v ++ [EvGetRecords nxt; EvPrint StillActive],
          Ok (set_loop false (advanced nxt res v)))) ->
  (forall v nxt res l r,
     loop v = true -> NextShardIterator (get_records_res v) = Some nxt ->
     get_records nxt = Ok res -> count v + 1 <= 150 ->
     while_loop get_records (advanced nxt res v) = (l, r) ->
     P (advanced nxt res v) (l, r) ->
     P v ((header v ++ [EvGetRecords nxt]) ++ l, r)) ->
  forall v, P v (while_loop get_records v).
Proof.
  intros Hstop Hclosed Hfail Hlimit Hstep.
  induction v as [v IH] using (while_ind get_records).
  rewrite while_loop_eq.
  destruct (loop v) eqn:Hl; [|apply Hstop; exact Hl].
  specialize (IH (header v ++ match NextShardIterator (get_records_res v) with
                              | Some nxt => [EvGetRecords nxt]
                              | None => []
                              end)).
  rewrite body_eq in *.
  destruct (NextShardIterator (get_records_res v)) as [nxt|] eqn:Hn.
  - destruct (get_records nxt) as [res|e] eqn:Hg.
    + destruct (count v + 1 >? 150) eqn:Hc.
      * unfold bind. rewrite while_loop_stopped by reflexivity.
        unfold ret. cbv beta iota. rewrite app_nil_r.
        apply Hlimit; [exact Hl|exact Hn|exact Hg|lia].
      * specialize (IH (advanced nxt res v) eq_refl eq_refl).
        unfold bind.
        destruct (while_loop get_records (advanced nxt res v)) as [l r] eqn:Hw.
        apply (Hstep v nxt res l r); [exact Hl|exact Hn|exact Hg|lia| |exact IH].
        exact Hw.
    + unfold bind. apply Hfail; [exact Hl|exact Hn|exact Hg].
  - unfold bind. rewrite while_loop_stopped by reflexivity.
    unfold ret. cbv beta iota. rewrite app_nil_r.
    apply Hclosed; [exact Hl|exact Hn].
Qed.

Lemma asked_app l1 l2 : asked (l1 ++ l2) = asked l1 ++ asked l2.
Proof. apply omap_app. Qed.

Lemma asked_header v : asked (header v) = [].
Proof.
  unfold header. rewrite asked_app.
  replace (asked (record_lines (Records (get_records_res v)))) with
    (@nil (string * string * string)).
  - destruct (0 <? _); reflexivity.
  - induction (Records (get_records_res v)) as [|r rs IH];
      [reflexivity|exact IH].
Qed.

Lemma while_loop_asks_nothing v :
  asked (trace (while_loop get_records v)) = [].
Proof.
  apply (while_loop_run_ind (fun _ m => asked (trace m) = []));
    clear v; intros; unfold trace in *; simpl fst in *;
    rewrite ?asked_app, ?asked_header; try reflexivity.
  simpl. assumption.
Qed.

(** *** How many fetches *)

Lemma while_loop_budget v :
  loop v = true ->
  (length (fetched (trace (while_loop get_records v))) <= fetch_budget v)%nat.
Proof.
  apply (while_loop_run_ind
           (fun v m => loop v = true ->
                       (length (fetched (trace m)) <= fetch_budget v)%nat));
    clear v; unfold trace, fetch_budget; simpl fst.
  - intros v Hl Hl'. congruence.
  - intros v _ _ _. rewrite fetched_app, fetched_header. simpl. lia.
  - intros v nxt e _ _ _ _. rewrite fetched_app, fetched_header. simpl. lia.
  - intros v nxt res _ _ _ _ _. rewrite fetched_app, fetched_header. simpl. lia.
  - intros v nxt res l r Hl _ _ Hc _ IH _.
    specialize (IH Hl). simpl count in IH.
    rewrite !fetched_app, fetched_header. simpl. lia.
Qed.

Lemma walk_shard_calls arn shard v :
  (length (fetched (trace (walk_shard get_shard_iterator get_records
                             arn shard v))) <= 152)%nat
  /\ asked (trace (walk_shard get_shard_iterator get_records arn shard v))
     = [(arn, shard, "TRIM_HORIZON")].
Proof.
  rewrite walk_shard_eq.
  destruct (get_shard_iterator arn shard "TRIM_HORIZON") as [it|e];
    [|split; [simpl; lia|reflexivity]].
  destruct (get_records it) as [r0|e]; [|split; [simpl; lia|reflexivity]].
  pose proof (while_loop_budget (entry shard it r0 v) eq_refl) as Hb.
  pose proof (while_loop_asks_nothing (entry shard it r0 v)) as Ha.
  destruct (while_loop get_records (entry shard it r0 v)) as [l r].
  unfold trace, fetch_budget in *. simpl in *. rewrite Ha.
  split; [lia|reflexivity].
Qed.

(** X1: whatever the service answers, the walk of one shard asks for one
    shard iterator and makes at most 152 calls to [get_records]. *)
Theorem walk_shard_fetch_bound arn shard v :
  (length (fetched (trace (walk_shard get_shard_iterator get_records
                             arn shard v))) <= 152)%nat
  /\ asked (trace (walk_shard get_shard_iterator get_records arn shard v))
     = [(arn, shard, "TRIM_HORIZON")].
Proof. exact (walk_shard_calls arn shard v). Qed.

(** *** The counter and the report at the end of a walk *)

Lemma reports_app l1 l2 : reports (l1 ++ l2) = reports l1 ++ reports l2.
Proof. apply omap_app. Qed.

Lemma reports_header v : reports (header v) = [].
Proof.
  unfold header. rewrite reports_app.
  replace (reports (record_lines (Records (get_records_res v)))) with
    (@nil Line).
  - destruct (0 <? _); reflexivity.
  - induction (Records (get_records_res v)) as [|r rs IH];
      [reflexivity|exact IH].
Qed.

Lemma while_loop_report v :
  loop v = true -> count v <= 150 ->
  match outcome (while_loop get_records v) with
  | Raise _ => reports (trace (while_loop get_records v)) = []
  | Ok v' =>
      loop v' = false /\
      count v' = count v
                 + Z.of_nat (length (fetched (trace (while_loop get_records v))))
      /\ ((reports (trace (while_loop get_records v)) = [ShardClosed (count v')]
           /\ last (trace (while_loop get_records v))
              = Some (EvPrint (ShardClosed (count v')))
           /\ count v' <= 150)
          \/ (reports (trace (while_loop get_records v)) = [StillActive]
              /\ last (trace (while_loop get_records v))
                 = Some (EvPrint StillActive)
              /\ count v' = 151))
  end.
Proof.
  apply (while_loop_run_ind
           (fun v m =>
              loop v = true -> count v <= 150 ->
              match outcome m with
              | Raise _ => reports (trace m) = []
              | Ok v' =>
                  loop v' = false /\
                  count v' = count v + Z.of_nat (length (fetched (trace m)))
                  /\ ((reports (trace m) = [ShardClosed (count v')]
                       /\ last (trace m) = Some (EvPrint (ShardClosed (count v')))
                       /\ count v' <= 150)
                      \/ (reports (trace m) = [StillActive]
                          /\ last (trace m) = Some (EvPrint StillActive)
                          /\ count v' = 151))
              end));
    clear v; unfold trace, outcome; simpl fst; simpl snd.
  - intros v Hl Hl'. congruence.
  - intros v _ _ _ Hc. split; [reflexivity|].
    rewrite fetched_app, fetched_header, reports_app, reports_header,
      last_snoc. simpl. split; [lia|]. left. auto.
  - intros v nxt e _ _ _ _ _. rewrite reports_app, reports_header. reflexivity.
  - intros v nxt res _ _ _ Hlim _ Hc. split; [reflexivity|].
    rewrite fetched_app, fetched_header, reports_app, reports_header.
    simpl. split; [lia|]. right.
    split; [reflexivity|]. split; [|lia].
    change [EvGetRecords nxt; EvPrint StillActive]
      with ([EvGetRecords nxt] ++ [EvPrint StillActive]).
    rewrite app_assoc, last_snoc. reflexivity.
  - intros v nxt res l r Hl _ _ Hc Hw IH _ _.
    specialize (IH Hl). simpl count in IH. specialize (IH ltac:(lia)).
    rewrite !reports_app, reports_header, !fetched_app, fetched_header.
    simpl. destruct r as [v'|e]; [|exact IH].
    destruct IH as (Hl' & Hcnt & Hrep). split; [exact Hl'|].
    split; [lia|].
    assert (Hlast : forall x, last l = Some x ->
              last ((header v ++ [EvGetRecords nxt]) ++ l) = Some x).
    { intros x Hx. destruct l as [|y l'] using rev_ind; [discriminate|].
      rewrite last_snoc in Hx. rewrite app_assoc, last_snoc. exact Hx. }
    destruct Hrep as [(Hr & Hla & Hb)|(Hr & Hla & Hb)]; [left|right];
      (split; [exact Hr|split; [apply Hlast; exact Hla|exact Hb]]).
Qed.

(** X3: a walk of a shard that ends without an exception has cleared
    [loop] and leaves [count] at the number of its fetches less one.  It
    reports on the shard exactly once, as its last event: that the shard is
    closed, with that count, which is then at most 150, or that the shard
    is still active, and then the count is 151.  A walk that raises makes
    no report. *)
Theorem walk_shard_reports_once arn shard v :
  match outcome (walk_shard get_shard_iterator get_records arn shard v) with
  | Raise _ =>
      reports (trace (walk_shard get_shard_iterator get_records arn shard v))
      = []
  | Ok v' =>
      loop v' = false /\
      count v'
      = Z.of_nat (length (fetched (trace (walk_shard get_shard_iterator
                                            get_records arn shard v)))) - 1
      /\ ((reports (trace (walk_shard get_shard_iterator get_records
                             arn shard v)) = [ShardClosed (count v')]
           /\ last (trace (walk_shard get_shard_iterator get_records
                             arn shard v))
              = Some (EvPrint (ShardClosed (count v')))
           /\ count v' <= 150)
          \/ (reports (trace (walk_shard get_shard_iterator get_records
                                arn shard v)) = [StillActive]
              /\ last (trace (walk_shard get_shard_iterator get_records
                                arn shard v))
                 = Some (EvPrint StillActive)
              /\ count v' = 151))
  end.
Proof.
  rewrite walk_shard_eq.
  destruct (get_shard_iterator arn shard "TRIM_HORIZON") as [it|e];
    [|reflexivity].
  destruct (get_records it) as [r0|e]; [|reflexivity].
  pose proof (while_loop_report (entry shard it r0 v) eq_refl) as Hr.
  simpl count in Hr. specialize (Hr ltac:(lia)).
  destruct (while_loop get_records (entry shard it r0 v)) as [l r].
  unfold trace, outcome in *. simpl fst in *. simpl snd in *.
  destruct r as [v'|e]; [|exact Hr].
  destruct Hr as (Hl & Hc & Hrep). split; [exact Hl|].
  split; [simpl; lia|].
  assert (Hlast : forall x, last l = Some x ->
            last (EvGetShardIterator arn shard "TRIM_HORIZON"
                    :: EvGetRecords it :: EvPrint (Checking shard) :: l)
            = Some x).
  { intros x Hx. destruct l as [|y l'] using rev_ind; [discriminate|].
    rewrite last_snoc in Hx.
    change (EvGetShardIterator arn shard "TRIM_HORIZON" :: EvGetRecords it
              :: EvPrint (Checking shard) :: l' ++ [y])
      with ((EvGetShardIterator arn shard "TRIM_HORIZON" :: EvGetRecords it
               :: EvPrint (Checking shard) :: l') ++ [y]).
    rewrite last_snoc. exact Hx. }
  destruct Hrep as [(Hr & Hla & Hb)|(Hr & Hla & Hb)]; [left|right];
    (split; [exact Hr|split; [apply Hlast; exact Hla|exact Hb]]).
Qed.

(** *** Shards of any length *)

Lemma while_loop_serves_any bs : forall v,
  loop v = true -> count v <= 150 ->
  serves get_records (get_records_res v) bs ->
  emitted (trace (while_loop get_records v))
  = concat (firstn (Z.to_nat (151 - count v)) bs)
  /\ raised (while_loop get_records v) = None
  /\ (marked_closed (trace (while_loop get_records v)) = true
      <-> count v + Z.of_nat (length bs) <= 151).
Proof.
  induction bs as [|b rest IH]; intros v Hl Hc Hs; [contradiction|].
  destruct Hs as [Hb Hrest].
  replace (Z.to_nat (151 - count v))
    with (Datatypes.S (Z.to_nat (151 - (count v + 1)))) by lia.
  rewrite while_loop_eq, Hl, body_eq.
  destruct rest as [|b2 rest'].
  - rewrite Hrest. unfold bind.
    rewrite while_loop_stopped by reflexivity.
    unfold ret, raised, outcome, trace. simpl.
    rewrite !app_nil_r, emitted_app, emitted_header, Hb,
      marked_closed_app, marked_closed_header.
    simpl. rewrite take_nil. simpl. rewrite !app_nil_r.
    split; [reflexivity|].
    split; [reflexivity|]. split; [lia|reflexivity].
  - destruct Hrest as (nxt & r' & Hn & Hg & Hs').
    rewrite Hn, Hg.
    destruct (count v + 1 >? 150) eqn:Hlim.
    + unfold bind. rewrite while_loop_stopped by reflexivity.
      unfold ret, raised, outcome, trace. simpl.
      rewrite !app_nil_r, emitted_app, emitted_header, Hb,
        marked_closed_app, marked_closed_header.
      replace (Z.to_nat (151 - (count v + 1))) with 0%nat by lia.
      simpl. rewrite !app_nil_r. split; [reflexivity|].
      split; [reflexivity|]. split; [discriminate|lia].
    + destruct (IH (advanced nxt r' v)) as (He & Hr & Hm);
        [exact Hl|simpl; lia|exact Hs'|].
      simpl count in He, Hm. unfold bind.
      destruct (while_loop get_records (advanced nxt r' v)) as [l res].
      unfold raised, outcome, trace in *. simpl in *.
      rewrite !emitted_app, emitted_header, Hb, He,
        !marked_closed_app, marked_closed_header.
      simpl. rewrite app_nil_r. split; [reflexivity|].
      split; [exact Hr|]. rewrite Hm. lia.
Qed.

(** X4: on a shard that the service returns as batches, however many, the
    walk prints exactly the records of the first 151 batches, in order, and
    ends without an exception; it reports the shard as closed if and only
    if the shard has at most 151 batches. *)
Theorem walker_emits_first_151_batches arn shard v it0 bs :
  get_shard_iterator arn shard "TRIM_HORIZON" = Ok it0 ->
  shard_serves get_records it0 bs ->
  emitted (trace (walk_shard get_shard_iterator get_records arn shard v))
  = concat (firstn 151 bs)
  /\ raised (walk_shard get_shard_iterator get_records arn shard v) = None
  /\ (marked_closed
        (trace (walk_shard get_shard_iterator get_records arn shard v)) = true
      <-> (length bs <= 151)%nat).
Proof.
  intros Hit (r0 & Hr0 & Hs).
  rewrite walk_shard_eq, Hit, Hr0.
  destruct (while_loop_serves_any bs (entry shard it0 r0 v))
    as (He & Hr & Hm); [reflexivity|simpl; lia|exact Hs|].
  simpl count in He, Hm.
  destruct (while_loop get_records (entry shard it0 r0 v)) as [l res].
  unfold raised, outcome, trace in *. simpl in *.
  split; [exact He|]. split; [exact Hr|]. rewrite Hm. lia.
Qed.

Lemma printed_app l1 l2 : printed (l1 ++ l2) = printed l1 ++ printed l2.
Proof. apply omap_app. Qed.

Lemma printed_header v :
  printed (header v)
  = (if 0 <? Z.of_nat (length (Records (get_records_res v)))
     then [FoundRecords (count v)] else [])
    ++ map RecordLine (Records (get_records_res v)).
Proof.
  unfold header. rewrite printed_app. f_equal.
  - destruct (0 <? _); reflexivity.
  - induction (Records (get_records_res v)) as [|r rs IH];
      [reflexivity|simpl; rewrite <- IH; reflexivity].
Qed.

Lemma while_loop_prints_report bs : forall v,
  loop v = true ->
  count v + Z.of_nat (length bs) <= 151 ->
  serves get_records (get_records_res v) bs ->
  printed (trace (while_loop get_records v)) = shard_report (count v) bs.
Proof.
  induction bs as [|b rest IH]; intros v Hl Hc Hs; [contradiction|].
  destruct Hs as [Hb Hrest].
  rewrite while_loop_eq, Hl, body_eq.
  destruct rest as [|b2 rest'].
  - rewrite Hrest. unfold bind.
    rewrite while_loop_stopped by reflexivity.
    unfold ret, trace. simpl fst.
    rewrite !app_nil_r, printed_app, printed_header, Hb.
    simpl. rewrite <- app_assoc. reflexivity.
  - destruct Hrest as (nxt & r' & Hn & Hg & Hs').
    rewrite Hn, Hg.
    replace (count v + 1 >? 150) with false by (simpl length in Hc; lia).
    specialize (IH (advanced nxt r' v) Hl).
    simpl count in IH. specialize (IH ltac:(simpl length in *; lia) Hs').
    unfold bind.
    destruct (while_loop get_records (advanced nxt r' v)) as [l res].
    unfold trace in *. simpl fst in *.
    rewrite !printed_app, printed_header, Hb, IH.
    simpl. rewrite <- !app_assoc. reflexivity.
Qed.

(** X5: on a shard of at most 151 batches the walk prints the line naming
    the shard, then, batch by batch, the line "Found records on iteration
    number i" with the 0-based number i of the batch, if the batch is not
    empty, followed by one line per record; after the last batch it prints
    that the shard is closed, with the number of that batch. *)
Theorem walker_prints_shard_report arn shard v it0 bs :
  get_shard_iterator arn shard "TRIM_HORIZON" = Ok it0 ->
  shard_serves get_records it0 bs ->
  (length bs <= 151)%nat ->
  printed (trace (walk_shard get_shard_iterator get_records arn shard v))
  = Checking shard :: shard_report 0 bs.
Proof.
  intros Hit (r0 & Hr0 & Hs) Hlen.
  rewrite walk_shard_eq, Hit, Hr0.
  pose proof (while_loop_prints_report bs (entry shard it0 r0 v) eq_refl) as Hp.
  simpl count in Hp. specialize (Hp ltac:(lia) Hs).
  destruct (while_loop get_records (entry shard it0 r0 v)) as [l res].
  unfold trace in *. simpl in *. rewrite Hp. reflexivity.
Qed.

(** *** The whole cell *)

Lemma walker_cell_eq v :
  walker_cell list_streams describe_stream get_shard_iterator get_records v
  = match list_streams with
    | Raise e => ([EvListStreams], Raise e)
    | Ok [] => ([EvListStreams], Raise (OtherError "IndexError"))
    | Ok (arn :: _) =>
        match describe_stream arn with
        | Raise e => ([EvListStreams; EvDescribeStream arn], Raise e)
        | Ok shards =>
            match for_shards get_shard_iterator get_records arn shards v with
            | (l, Ok v') =>
                (EvListStreams :: EvDescribeStream arn :: l ++ [EvPrint Done],
                 Ok v')
            | (l, Raise e) =>
                (EvListStreams :: EvDescribeStream arn :: l, Raise e)
            end
        end
    end.
Proof.
  unfold walker_cell, call_list_streams, call_describe_stream.
  destruct list_streams as [[|arn others]|e]; try reflexivity.
  simpl. destruct (describe_stream arn) as [shards|e]; [|reflexivity].
  simpl. destruct (for_shards _ _ arn shards v) as [l [v'|e]]; reflexivity.
Qed.

Lemma for_shards_cons arn shard rest v :
  for_shards get_shard_iterator get_records arn (shard :: rest) v
  = bind (walk_shard get_shard_iterator get_records arn shard v)
         (for_shards get_shard_iterator get_records arn rest).
Proof. reflexivity. Qed.

Lemma for_shards_fetch_bound arn shards : forall v,
  (length (fetched (trace (for_shards get_shard_iterator get_records
                             arn shards v)))
   <= 152 * length shards)%nat.
Proof.
  induction shards as [|s rest IH]; intros v; [simpl; lia|].
  rewrite for_shards_cons.
  destruct (walk_shard_calls arn s v) as [Hb _].
  destruct (walk_shard get_shard_iterator get_records arn s v) as [l [v'|e]].
  - specialize (IH v'). unfold bind.
    destruct (for_shards get_shard_iterator get_records arn rest v')
      as [l' r'].
    unfold trace in *. simpl fst in *.
    rewrite fetched_app, length_app. simpl length. lia.
  - unfold bind, trace in *. simpl fst in *. simpl length. lia.
Qed.

Lemma for_shards_asks_in_order arn shards : forall v,
  asked (trace (for_shards get_shard_iterator get_records arn shards v))
    `prefix_of` map (fun s => (arn, s, "TRIM_HORIZON")) shards
  /\ (raised (for_shards get_shard_iterator get_records arn shards v) = None ->
      asked (trace (for_shards get_shard_iterator get_records arn shards v))
      = map (fun s => (arn, s, "TRIM_HORIZON")) shards).
Proof.
  induction shards as [|s rest IH]; intros v.
  - split; [apply prefix_nil|reflexivity].
  - rewrite for_shards_cons.
    destruct (walk_shard_calls arn s v) as [_ Ha].
    destruct (walk_shard get_shard_iterator get_records arn s v) as [l [v'|e]].
    + destruct (IH v') as [Hp He]. unfold bind.
      destruct (for_shards get_shard_iterator get_records arn rest v')
        as [l' r'].
      unfold trace, raised, outcome in *. simpl fst in *. simpl snd in *.
      rewrite asked_app, Ha. simpl. split.
      * apply prefix_cons. exact Hp.
      * intros Hr. rewrite (He Hr). reflexivity.
    + unfold bind, trace, raised, outcome in *. simpl fst in *. simpl snd in *.
      rewrite Ha. split; [|discriminate].
      apply prefix_cons. apply prefix_nil.
Qed.

(** X2: with a stream in the listing and the shards of its description,
    the cell makes at most 152 calls to [get_records] per listed shard. *)
Theorem walker_cell_fetch_bound v arn others shards :
  list_streams = Ok (arn :: others) ->
  describe_stream arn = Ok shards ->
  (length (fetched (trace (walker_cell list_streams describe_stream
                             get_shard_iterator get_records v)))
   <= 152 * length shards)%nat.
Proof.
  intros Hls Hds. rewrite walker_cell_eq, Hls, Hds.
  pose proof (for_shards_fetch_bound arn shards v) as Hb.
  destruct (for_shards get_shard_iterator get_records arn shards v)
    as [l [v'|e]]; unfold trace in *; simpl fst in *.
  - change (fetched (EvListStreams :: EvDescribeStream arn
                       :: l ++ [EvPrint Done]))
      with (fetched (l ++ [EvPrint Done])).
    rewrite fetched_app. simpl. rewrite app_nil_r. exact Hb.
  - exact Hb.
Qed.

(** X6: the cell asks for the shard iterators in the order of the listing,
    one request per shard, each for the first stream of the listing and of
    type TRIM_HORIZON; the requests cover a prefix of the listing, and the
    whole listing when the cell ends without an exception. *)
Theorem walker_cell_visits_in_listing_order v arn others shards :
  list_streams = Ok (arn :: others) ->
  describe_stream arn = Ok shards ->
  asked (trace (walker_cell list_streams describe_stream
                  get_shard_iterator get_records v))
    `prefix_of` map (fun s => (arn, s, "TRIM_HORIZON")) shards
  /\ (raised (walker_cell list_streams describe_stream
                get_shard_iterator get_records v) = None ->
      asked (trace (walker_cell list_streams describe_stream
                      get_shard_iterator get_records v))
      = map (fun s => (arn, s, "TRIM_HORIZON")) shards).
Proof.
  intros Hls Hds. rewrite walker_cell_eq, Hls, Hds.
  destruct (for_shards_asks_in_order arn shards v) as [Hp He].
  destruct (for_shards get_shard_iterator get_records arn shards v)
    as [l [v'|e]]; unfold trace, raised, outcome in *;
    simpl fst in *; simpl snd in *.
  - change (asked (EvListStreams :: EvDescribeStream arn
                     :: l ++ [EvPrint Done]))
      with (asked (l ++ [EvPrint Done])).
    rewrite asked_app. simpl. rewrite app_nil_r.
    split; [exact Hp|intros _; apply He; reflexivity].
  - split; [exact Hp|discriminate].
Qed.

(** *** The end of the cell *)

Lemma is_done_header v : existsb is_done (header v) = false.
Proof.
  unfold header. rewrite existsb_app.
  replace (existsb is_done (record_lines (Records (get_records_res v))))
    with false.
  - destruct (0 <? _); reflexivity.
  - induction (Records (get_records_res v)) as [|r rs IH];
      [reflexivity|exact IH].
Qed.

Lemma while_loop_not_done v :
  existsb is_done (trace (while_loop get_records v)) = false.
Proof.
  apply (while_loop_run_ind (fun _ m => existsb is_done (trace m) = false));
    clear v; intros; unfold trace in *; simpl fst in *;
    rewrite ?existsb_app, ?is_done_header; try reflexivity.
  simpl. assumption.
Qed.

Lemma walk_shard_not_done arn shard v :
  existsb is_done
    (trace (walk_shard get_shard_iterator get_records arn shard v)) = false.
Proof.
  rewrite walk_shard_eq.
  destruct (get_shard_iterator arn shard "TRIM_HORIZON") as [it|e];
    [|reflexivity].
  destruct (get_records it) as [r0|e]; [|reflexivity].
  pose proof (while_loop_not_done (entry shard it r0 v)) as Hd.
  destruct (while_loop get_records (entry shard it r0 v)) as [l r].
  exact Hd.
Qed.

Lemma for_shards_not_done arn shards : forall v,
  existsb is_done
    (trace (for_shards get_shard_iterator get_records arn shards v)) = false.
Proof.
  induction shards as [|s rest IH]; intros v; [reflexivity|].
  rewrite for_shards_cons.
  pose proof (walk_shard_not_done arn s v) as Hd.
  destruct (walk_shard get_shard_iterator get_records arn s v) as [l [v'|e]].
  - specialize (IH v'). unfold bind.
    destruct (for_shards get_shard_iterator get_records arn rest v')
      as [l' r'].
    unfold trace in *. simpl fst in *.
    rewrite existsb_app, Hd, IH. reflexivity.
  - exact Hd.
Qed.

(** X7: the cell prints "Done!" if and only if it ends without an
    exception; the line is then printed once, as the last event. *)
Theorem walker_cell_done_iff_no_exception v :
  match raised (walker_cell list_streams describe_stream
                  get_shard_iterator get_records v) with
  | None =>
      exists pre,
        trace (walker_cell list_streams describe_stream
                 get_shard_iterator get_records v) = pre ++ [EvPrint Done]
        /\ existsb is_done pre = false
  | Some _ =>
      existsb is_done
        (trace (walker_cell list_streams describe_stream
                  get_shard_iterator get_records v)) = false
  end.
Proof.
  rewrite walker_cell_eq.
  destruct list_streams as [[|arn others]|e]; try reflexivity.
  destruct (describe_stream arn) as [shards|e]; [|reflexivity].
  pose proof (for_shards_not_done arn shards v) as Hd.
  destruct (for_shards get_shard_iterator get_records arn shards v)
    as [l [v'|e]]; unfold trace, raised, outcome in *;
    simpl fst in *; simpl snd in *.
  - exists (EvListStreams :: EvDescribeStream arn :: l).
    split; [reflexivity|exact Hd].
  - exact Hd.
Qed.

(** *** Failures *)





End Proofs.

Lemma walker_emits_first_151_batches_witness :
  emitted (trace (walk_shard one_iterator late_get_records
                    "arn" "shard-0" blank))
  = concat (firstn 151 late_batches)
  /\ raised (walk_shard one_iterator late_get_records "arn" "shard-0" blank)
     = None
  /\ (marked_closed
        (trace (walk_shard one_iterator late_get_records
                  "arn" "shard-0" blank)) = true
      <-> (length late_batches <= 151)%nat).
Proof.
  apply (walker_emits_first_151_batches one_iterator late_get_records
           "arn" "shard-0" blank "" late_batches);
    [reflexivity|exact late_serves].
Defined.

Lemma walker_prints_shard_report_witness :
  printed (trace (walk_shard one_iterator demo_get_records
                    "arn" "shard-0" blank))
  = [Checking "shard-0"; FoundRecords 0; RecordLine moby; RecordLine ahab;
     FoundRecords 2; RecordLine whale; ShardClosed 2].
Proof.
  apply (walker_prints_shard_report one_iterator demo_get_records
           "arn" "shard-0" blank "" demo_batches);
    [reflexivity|exact demo_serves|simpl; lia].
Defined.

Lemma walker_cell_fetch_bound_witness :
  (length (fetched (trace (walker_cell demo_list_streams demo_describe_stream
                             one_iterator idle_get_records blank)))
   <= 152 * 2)%nat.
Proof.
  apply (walker_cell_fetch_bound demo_list_streams demo_describe_stream
           one_iterator idle_get_records blank "arn:demo" []
           ["shard-0"; "shard-1"]); reflexivity.
Defined.

Lemma walker_cell_visits_in_listing_order_witness :
  asked (trace (walker_cell demo_list_streams demo_describe_stream
                  one_iterator demo_get_records blank))
  = [("arn:demo", "shard-0", "TRIM_HORIZON");
     ("arn:demo", "shard-1", "TRIM_HORIZON")].
Proof.
  apply (walker_cell_visits_in_listing_order demo_list_streams
           demo_describe_stream one_iterator demo_get_records blank
           "arn:demo" [] ["shard-0"; "shard-1"]);
    [reflexivity|reflexivity|vm_compute; reflexivity].
Defined.


End WalkerMore.

(** * The guarded cells: what they let through *)

Module CellsMore.
Import Cells.
Local Open Scope cell_scope.

Section AnyService.

Context {S : Type} `{TableService S}.

(** X9: whatever the service does, none of the four cells with an
    [except ClientError] handler ends with a [ClientError]: the create
    cell, the conditional put, the repeated conditional update and the
    delete cell catch every one of them. *)
Theorem guarded_cells_never_raise_ClientError (s : S) (code : string) :
  snd (fst (create_cell s)) <> Raise (ClientError code)
  /\ snd (fst (conditional_put_cell s)) <> Raise (ClientError code)
  /\ snd (fst (conditional_update_again_cell s)) <> Raise (ClientError code)
  /\ snd (fst (delete_cell s)) <> Raise (ClientError code).
Proof.
  repeat split;
    unfold create_cell, conditional_put_cell, conditional_update_again_cell,
      conditional_update, delete_cell, try_except_ClientError, bind, call,
      print;
    repeat (simpl;
      match goal with
      | |- context [String.eqb ?a ?b] => destruct (String.eqb a b)
      | |- context [create_table ?a ?b] =>
          destruct (create_table a b) as [[?|[?|?]] ?]
      | |- context [wait_until_exists ?a ?b] =>
          destruct (wait_until_exists a b) as [[?|[?|?]] ?]
      | |- context [put_item ?a ?b ?c ?d] =>
          destruct (put_item a b c d) as [[?|[?|?]] ?]
      | |- context [update_item ?a ?b ?c ?d ?e] =>
          destruct (update_item a b c d e) as [[?|[?|?]] ?]
      | |- context [delete_table ?a ?b] =>
          destruct (delete_table a b) as [[?|[?|?]] ?]
      | |- context [wait_until_not_exists ?a ?b] =>
          destruct (wait_until_not_exists a b) as [[?|[?|?]] ?]
      end);
    simpl; congruence.
Qed.

End AnyService.

End CellsMore.

(** * The cells that read one batch by hand: proofs *)

Module ManualProofs.
Import Walker WalkerLog Manual WalkerProofs.
Local Open Scope walker_scope.

(** *** Strings *)









Lemma print_records_cell_empty :
  print_records_cell [] = ["No records found on this iteration"].
Proof. reflexivity. Qed.

Section Service.

Variable get_shard_iterator : string -> string -> string -> result string.
Variable get_records : string -> result Response.

(** X11: read by hand, the shard picked is asked for its iterator and
    fetched once.  When the answer carries a next cursor, the cells leave
    the batch in [records], the cursor in [next_iterator] and the answer in
    [get_records_res].  When the answer carries none, the shard being
    closed, the cell that reads the batch ends with a [KeyError], whereas
    the walker on the same shard prints the records of that answer and
    reports the shard as closed. *)
Theorem manual_fetch_needs_open_shard stream v it r :
  get_shard_iterator stream (shardId v) "TRIM_HORIZON" = Ok it ->
  get_records it = Ok r ->
  trace (bind (get_iterator_cell get_shard_iterator stream v)
              (get_records_cell get_records))
  = [EvGetShardIterator stream (shardId v) "TRIM_HORIZON"; EvGetRecords it]
  /\ match NextShardIterator r with
     | Some nxt =>
         exists v',
           outcome (bind (get_iterator_cell get_shard_iterator stream v)
                         (get_records_cell get_records)) = Ok v'
           /\ records v' = Records r /\ next_iterator v' = Some nxt
           /\ get_records_res v' = r /\ iterator v' = it
     | None =>
         outcome (bind (get_iterator_cell get_shard_iterator stream v)
                       (get_records_cell get_records))
         = Raise (OtherError "KeyError: 'NextShardIterator'")
         /\ emitted (trace (walk_shard get_shard_iterator get_records
                              stream (shardId v) v)) = Records r
         /\ reports (trace (walk_shard get_shard_iterator get_records
                              stream (shardId v) v)) = [ShardClosed 0]
         /\ raised (walk_shard get_shard_iterator get_records
                      stream (shardId v) v) = None
     end.
Proof.
  intros Hit Hg.
  unfold get_iterator_cell, get_records_cell, call_get_shard_iterator,
    call_get_records, bind, ret.
  rewrite Hit. simpl. rewrite Hg. simpl.
  destruct (NextShardIterator r) as [nxt|] eqn:Hn; simpl.
  - split; [reflexivity|]. eexists. split; [reflexivity|]. repeat split.
  - split; [reflexivity|]. split; [reflexivity|].
    rewrite walk_shard_eq, Hit, Hg, while_loop_eq.
    change (loop (entry (shardId v) it r v)) with true. cbv iota.
    rewrite body_eq.
    change (get_records_res (entry (shardId v) it r v)) with r.
    rewrite Hn. unfold bind. rewrite while_loop_stopped by reflexivity.
    unfold ret, trace, raised, outcome. simpl.
    rewrite app_nil_r.
    change (EvGetShardIterator stream (shardId v) "TRIM_HORIZON"
              :: EvGetRecords it :: EvPrint (Checking (shardId v))
              :: header (entry (shardId v) it r v)
                   ++ [EvPrint (ShardClosed 0)])
      with ([EvGetShardIterator stream (shardId v) "TRIM_HORIZON";
             EvGetRecords it; EvPrint (Checking (shardId v))]
              ++ header (entry (shardId v) it r v)
              ++ [EvPrint (ShardClosed 0)]).
    rewrite !emitted_app, emitted_header.
    unfold reports. rewrite !omap_app.
    change (omap report_of (header (entry (shardId v) it r v)))
      with (reports (header (entry (shardId v) it r v))).
    replace (reports (header (entry (shardId v) it r v))) with (@nil Line).
    + simpl. rewrite app_nil_r. repeat split.
    + unfold header, reports. rewrite omap_app.
      replace (omap report_of (record_lines (Records (get_records_res
                 (entry (shardId v) it r v))))) with (@nil Line).
      * destruct (0 <? _); reflexivity.
      * induction (Records (get_records_res (entry (shardId v) it r v)))
          as [|x xs IH]; [reflexivity|exact IH].
Qed.

End Service.


Lemma manual_fetch_needs_open_shard_witness :
  trace (bind (get_iterator_cell one_iterator "arn" blank)
              (get_records_cell demo_get_records))
  = [EvGetShardIterator "arn" "" "TRIM_HORIZON"; EvGetRecords ""].
Proof.
  apply (manual_fetch_needs_open_shard one_iterator demo_get_records
           "arn" blank "" (mkResponse [moby; ahab] (Some "i"))); reflexivity.
Defined.

End ManualProofs.

(** * The cell that loads the books in a batch: proofs *)

Module BatchProofs.
Import BatchWrite.

(** The item of a book, attribute by attribute. *)
Lemma item_of_lookup (book : Book) (item : Item) :
  item_of book = Ok item ->
  forall k,
    item !! k
    = if decide (k = "Rating") then Plain <$> book !! "Rating"
      else if decide (k = "Editions")
           then match book !! "Editions" with
                | Some x => match py_set x with
                            | Ok s => Some (StringSet s)
                            | Raise _ => None
                            end
                | None => None
                end
           else if decide (k = "Title") then Plain <$> book !! "Title"
                else if decide (k = "Author") then Plain <$> book !! "Author"
                     else None.
Proof.
  unfold item_of, getitem. intros E k.
  destruct (book !! "Author") as [a|] eqn:Ha; [|discriminate].
  destruct (book !! "Title") as [t|] eqn:Ht; [|discriminate].
  destruct (book !! "Editions") as [x|] eqn:He.
  - destruct (py_set x) as [s|e] eqn:Hs; [|discriminate].
    destruct (book !! "Rating") as [r|] eqn:Hr; inversion E; subst item;
      repeat case_decide; subst; simplify_map_eq; reflexivity.
  - destruct (book !! "Rating") as [r|] eqn:Hr; inversion E; subst item;
      repeat case_decide; subst; simplify_map_eq; reflexivity.
Qed.

(** X12: the item built from a book carries the book's Author, Title and
    Rating unchanged (the Rating only if the book has one), an Editions
    attribute exactly when the book has one, and nothing else: every other
    attribute of the book is left out. *)
Theorem item_of_attributes (book : Book) (item : Item) :
  item_of book = Ok item ->
  item !! "Author" = Plain <$> book !! "Author"
  /\ item !! "Title" = Plain <$> book !! "Title"
  /\ item !! "Rating" = Plain <$> book !! "Rating"
  /\ (is_Some (item !! "Editions") <-> is_Some (book !! "Editions"))
  /\ is_Some (item !! "Author") /\ is_Some (item !! "Title")
  /\ forall k,
       k <> "Author" -> k <> "Title" -> k <> "Editions" -> k <> "Rating" ->
       item !! k = None.
Proof.
  intros E. pose proof (item_of_lookup book item E) as Hk.
  assert (Ha : is_Some (book !! "Author")).
  { unfold item_of, getitem in E. destruct (book !! "Author"); eauto.
    discriminate. }
  assert (Ht : is_Some (book !! "Title")).
  { unfold item_of, getitem in E. destruct (book !! "Author"); [|discriminate].
    destruct (book !! "Title"); eauto. discriminate. }
  assert (He : forall x, book !! "Editions" = Some x ->
                         exists s, py_set x = Ok s).
  { intros x Hx. unfold item_of, getitem in E.
    destruct (book !! "Author"); [|discriminate].
    destruct (book !! "Title"); [|discriminate].
    rewrite Hx in E. destruct (py_set x); eauto. discriminate. }
  split; [rewrite Hk; reflexivity|]. split; [rewrite Hk; reflexivity|].
  split; [rewrite Hk; reflexivity|]. split.
  { rewrite Hk. simpl. destruct (book !! "Editions") as [x|] eqn:Hx.
    - destruct (He x eq_refl) as [s Hs]. rewrite Hs. split; eauto.
    - split; intros [? ?]; discriminate. }
  split.
  { rewrite Hk. simpl. destruct Ha as [a Ha]. rewrite Ha. eauto. }
  split.
  { rewrite Hk. simpl. destruct Ht as [t Ht]. rewrite Ht. eauto. }
  intros k H1 H2 H3 H4. rewrite Hk.
  repeat case_decide; congruence.
Qed.

(** X13: the Editions of a book, a list of strings, become a set in the
    item: a string is in the set exactly when it is in the list, so an
    edition listed twice is kept once. *)
Theorem item_of_editions_set (book : Book) (item : Item) (l : list string) :
  item_of book = Ok item ->
  book !! "Editions" = Some (BStrs l) ->
  exists s : gset string,
    item !! "Editions" = Some (StringSet s)
    /\ (forall x, x ∈ s <-> x ∈ l)
    /\ (size s <= length l)%nat
    /\ (NoDup l -> size s = length l).
Proof.
  intros E Hl. pose proof (item_of_lookup book item E "Editions") as Hk.
  simpl in Hk. rewrite Hl in Hk. simpl in Hk.
  exists (list_to_set l). split; [exact Hk|].
  split; [intros x; apply elem_of_list_to_set|].
  split.
  - clear. induction l as [|x l IH]; [reflexivity|].
    simpl. rewrite size_union_alt, size_singleton.
    assert (size ((list_to_set l : gset string) ∖ {[x]})
            <= size (list_to_set l : gset string))%nat
      by (apply subseteq_size; apply subseteq_difference_l; reflexivity).
    lia.
  - intros Hnd. apply size_list_to_set. exact Hnd.
Qed.



Section Writer.

Variable put_raises : list Item -> Item -> option exn.
Variable exit_raises : list Item -> option exn.

Lemma load_books_prefix books : forall done,
  exists n,
    (n <= length books)%nat
    /\ Forall2 (fun book item => item_of book = Ok item)
         (take n books) (puts (fst (load_books put_raises books done)))
    /\ (snd (load_books put_raises books done) = Ok tt -> n = length books)
    /\ Forall (fun e => exists item, e = PutItem item)
         (fst (load_books put_raises books done)).
Proof.
  induction books as [|book rest IH]; intros done.
  - exists 0%nat. simpl. repeat split; auto.
  - simpl. destruct (item_of book) as [item|e] eqn:Hi.
    + destruct (put_raises done item) as [e|].
      * exists 1%nat. simpl. split; [lia|]. split.
        { rewrite take_0. repeat constructor. exact Hi. }
        split; [discriminate|]. repeat constructor. eauto.
      * destruct (IH (done ++ [item])) as (n & Hn & Hf & Hok & Hall).
        destruct (load_books put_raises rest (done ++ [item])) as [l r].
        simpl in *. exists (Datatypes.S n). split; [lia|]. split.
        { simpl. constructor; [exact Hi|exact Hf]. }
        split; [intros E; rewrite (Hok E); reflexivity|].
        constructor; [eauto|exact Hall].
    + exists 0%nat. simpl. split; [lia|]. split; [constructor|].
      split; [discriminate|constructor].
Qed.

(** X15: whatever fails, the cell first prints that it is writing, and the
    items it hands to [batch.put_item] are, in the order of the file, the
    items of the first books, one call per book.  When the cell ends
    without an exception every book has been put and "Done loading table"
    is its last event; when it raises, that line is not printed. *)
Theorem batch_cell_puts_a_prefix (books : list Book) :
  head (fst (batch_cell put_raises exit_raises books))
  = Some (Print "Batch writing records to table")
  /\ exists n,
       (n <= length books)%nat
       /\ Forall2 (fun book item => item_of book = Ok item)
            (take n books)
            (puts (fst (batch_cell put_raises exit_raises books)))
       /\ match snd (batch_cell put_raises exit_raises books) with
          | Ok _ =>
              n = length books
              /\ last (fst (batch_cell put_raises exit_raises books))
                 = Some (Print "Done loading table")
          | Raise _ =>
              ~ In (Print "Done loading table")
                  (fst (batch_cell put_raises exit_raises books))
          end.
Proof.
  unfold batch_cell.
  destruct (load_books_prefix books []) as (n & Hn & Hf & Hok & Hall).
  destruct (load_books put_raises books []) as [l r]. simpl in *.
  assert (Hnot : ~ In (Print "Done loading table")
                     (Print "Batch writing records to table" :: l)).
  { intros [E|Hin]; [discriminate|].
    rewrite Forall_forall in Hall. apply list_elem_of_In in Hin.
    destruct (Hall _ Hin) as [item E]. discriminate. }
  destruct (exit_raises (puts l)) as [e|].
  - split; [reflexivity|]. exists n. simpl. auto.
  - destruct r as [[]|e].
    + split; [reflexivity|]. exists n. simpl. split; [exact Hn|].
      unfold puts in *. rewrite omap_app. simpl. rewrite app_nil_r.
      split; [exact Hf|]. split; [apply Hok; reflexivity|].
      change (Print "Batch writing records to table"
                :: l ++ [Print "Done loading table"])
        with ((Print "Batch writing records to table" :: l)
                ++ [Print "Done loading table"]).
      apply last_snoc.
    + split; [reflexivity|]. exists n. simpl. auto.
Qed.


End Writer.

Lemma item_of_invisible_man : item_of invisible_man = Ok invisible_man_item.
Proof. vm_compute. reflexivity. Qed.

Lemma item_of_attributes_witness :
  invisible_man_item !! "Author" = Plain <$> invisible_man !! "Author"
  /\ invisible_man_item !! "Title" = Plain <$> invisible_man !! "Title"
  /\ invisible_man_item !! "Rating" = Plain <$> invisible_man !! "Rating"
  /\ (is_Some (invisible_man_item !! "Editions")
      <-> is_Some (invisible_man !! "Editions"))
  /\ is_Some (invisible_man_item !! "Author")
  /\ is_Some (invisible_man_item !! "Title")
  /\ forall k,
       k <> "Author" -> k <> "Title" -> k <> "Editions" -> k <> "Rating" ->
       invisible_man_item !! k = None.
Proof.
  apply (item_of_attributes invisible_man invisible_man_item).
  vm_compute. reflexivity.
Defined.

Lemma item_of_editions_set_witness :
  exists s : gset string,
    invisible_man_item !! "Editions" = Some (StringSet s)
    /\ (forall x, x ∈ s <-> x ∈ ["Kindle"; "Paperback"; "Kindle"])
    /\ (size s <= 3)%nat
    /\ (NoDup ["Kindle"; "Paperback"; "Kindle"] -> size s = 3%nat).
Proof.
  apply (item_of_editions_set invisible_man invisible_man_item
           ["Kindle"; "Paperback"; "Kindle"]);
    vm_compute; reflexivity.
Defined.


(** A book without a title ends the loop after the books before it. *)
Example untitled_book_stops_the_batch :
  batch_cell never_raises_put never_raises_exit
    [invisible_man; untitled; invisible_man]
  = ([Print "Batch writing records to table"; PutItem invisible_man_item],
     Raise (OtherError "KeyError: 'Title'")).
Proof. vm_compute. reflexivity. Qed.

End BatchProofs.
